(** * SnakeGame: the game-state engine of [src/components/SnakeGame.tsx]

    A shallow embedding of the state held by the [SnakeGame] component and of
    the functions that update it: [generateFood], [moveSnake], the game loop
    that drives [moveSnake], [handleKeyPress], [startGame], [togglePause] and
    [resetGame].  Rendering and the toast notifications do not take part in
    the state and are left out.

    JavaScript numbers that only ever hold small integers (coordinates, the
    score) are integers of [Z].  [Math.random()] is an input of the model: a
    random source is the sequence of the values successive calls return. *)

From Stdlib Require Import ZArith QArith Qround List String Ascii Bool Arith Lia.
From Stdlib Require Import DecimalString DecimalZ DecimalPos.
Import ListNotations.
Open Scope string_scope.
Open Scope Z_scope.

(** ** Data model *)

(** [interface Position { x: number; y: number }] *)
Record Position : Type := mkPosition { x : Z; y : Z }.

(** [interface GameState] *)
Record GameState : Type := mkGameState {
  snake : list Position;
  food : Position;
  direction : string;
  score : Z;
  gameOver : bool;
  isPaused : bool
}.

(** The three [useState] cells of the component.  [highScore] is written to
    [localStorage] whenever it is set, so the one field stands for both. *)
Record Engine : Type := mkEngine {
  gameState : GameState;
  highScore : Z;
  isPlaying : bool
}.

Definition GRID_SIZE : Z := 20.
Definition INITIAL_SNAKE : list Position := [mkPosition 10 10].
Definition INITIAL_FOOD : Position := mkPosition 15 15.

(** The state the component mounts with; [hs] is the high score read from
    [localStorage] (0 when there is none). *)
Definition initialGameState : GameState :=
  mkGameState INITIAL_SNAKE INITIAL_FOOD "RIGHT" 0 false false.

Definition initialEngine (hs : Z) : Engine :=
  mkEngine initialGameState hs false.

(** Record updates written [{ ...prevState, field: v }] in the source. *)
Definition withGameOver (s : GameState) (b : bool) : GameState :=
  mkGameState (snake s) (food s) (direction s) (score s) b (isPaused s).

Definition withIsPaused (s : GameState) (b : bool) : GameState :=
  mkGameState (snake s) (food s) (direction s) (score s) (gameOver s) b.

Definition withDirection (s : GameState) (d : string) : GameState :=
  mkGameState (snake s) (food s) d (score s) (gameOver s) (isPaused s).

Definition withSnake (s : GameState) (sn : list Position) : GameState :=
  mkGameState sn (food s) (direction s) (score s) (gameOver s) (isPaused s).

Definition withGameState (e : Engine) (s : GameState) : Engine :=
  mkEngine s (highScore e) (isPlaying e).

(** ** Randomness *)

(** The values returned by successive calls of [Math.random()]. *)
Definition RandomSource : Type := nat -> Q.

(** [Math.random()] returns a number in the interval [0, 1). *)
Definition validSource (random : RandomSource) : Prop :=
  forall n, (0 <= random n)%Q /\ (random n < 1)%Q.

(** [Math.floor(Math.random() * GRID_SIZE)] for the sample [r]. *)
Definition randomCoord (r : Q) : Z := Qfloor (r * inject_Z GRID_SIZE).

(** The source after one iteration of the sampling loop, which calls
    [Math.random()] twice. *)
Definition dropTwo (random : RandomSource) : RandomSource :=
  fun n => random (S (S n)).

(** The cell built by the first iteration of the loop on [random]. *)
Definition firstDraw (random : RandomSource) : Position :=
  mkPosition (randomCoord (random 0%nat)) (randomCoord (random 1%nat)).

(** The cell built by iteration [k] (counted from 0). *)
Fixpoint draw (random : RandomSource) (k : nat) : Position :=
  match k with
  | O => firstDraw random
  | S k' => draw (dropTwo random) k'
  end.

(** ** Operations *)

(** [segment => segment.x === c.x && segment.y === c.y] *)
Definition sameCell (c : Position) (segment : Position) : bool :=
  (x segment =? x c) && (y segment =? y c).

(** [snake.some(segment => segment.x === c.x && segment.y === c.y)] *)
Definition occupied (snake : list Position) (c : Position) : bool :=
  existsb (sameCell c) snake.

(** [generateFood]: the do-while loop, unrolled at most [fuel] times.  [None]
    means that the loop is still running after [fuel] iterations. *)
Fixpoint generateFood (fuel : nat) (random : RandomSource)
    (snake : list Position) : option Position :=
  match fuel with
  | O => None
  | S fuel' =>
      let newFood := firstDraw random in
      if occupied snake newFood
      then generateFood fuel' (dropTwo random) snake
      else Some newFood
  end.

(** The [switch (direction)] of [moveSnake], applied to a copy of the head.
    A string that is none of the four cases leaves the copy as it is. *)
Definition moveHead (direction : string) (head : Position) : Position :=
  if (direction =? "UP")%string then mkPosition (x head) (y head - 1)
  else if (direction =? "DOWN")%string then mkPosition (x head) (y head + 1)
  else if (direction =? "LEFT")%string then mkPosition (x head - 1) (y head)
  else if (direction =? "RIGHT")%string then mkPosition (x head + 1) (y head)
  else head.

(** [head.x < 0 || head.x >= GRID_SIZE || head.y < 0 || head.y >= GRID_SIZE] *)
Definition hitsWall (head : Position) : bool :=
  (x head <? 0) || (x head >=? GRID_SIZE) || (y head <? 0) || (y head >=? GRID_SIZE).

(** The state updater that [moveSnake] hands to [setGameState], together with
    the [setHighScore] call it makes.  On an empty snake [head] is an object
    without coordinates: the arithmetic gives [NaN], every comparison fails,
    and the one-element [newSnake] is emptied again by [pop], so the state
    comes back with the same fields. *)
Definition moveSnake (fuel : nat) (random : RandomSource) (e : Engine)
    : option Engine :=
  let prevState := gameState e in
  if gameOver prevState || isPaused prevState then Some e
  else
    match snake prevState with
    | [] => Some e
    | snake0 :: _ =>
        let head := moveHead (direction prevState) snake0 in
        if hitsWall head then Some (withGameState e (withGameOver prevState true))
        else if occupied (snake prevState) head
        then Some (withGameState e (withGameOver prevState true))
        else
          let newSnake := head :: snake prevState in
          if (x head =? x (food prevState)) && (y head =? y (food prevState))
          then
            let newScore := score prevState + 10 in
            match generateFood fuel random newSnake with
            | None => None
            | Some newFood =>
                Some (mkEngine
                        (mkGameState newSnake newFood (direction prevState)
                                     newScore (gameOver prevState)
                                     (isPaused prevState))
                        (if newScore >? highScore e then newScore
                         else highScore e)
                        (isPlaying e))
            end
          else Some (withGameState e (withSnake prevState (removelast newSnake)))
    end.

(** The game loop: the interval that calls [moveSnake] exists only while
    [isPlaying && !gameState.gameOver && !gameState.isPaused]. *)
Definition loopActive (e : Engine) : bool :=
  isPlaying e && negb (gameOver (gameState e)) && negb (isPaused (gameState e)).

(** One firing of the timer. *)
Definition advanceTick (fuel : nat) (random : RandomSource) (e : Engine)
    : option Engine :=
  if loopActive e then moveSnake fuel random e else Some e.

Definition togglePause (e : Engine) : Engine :=
  if negb (isPlaying e) || gameOver (gameState e) then e
  else withGameState e (withIsPaused (gameState e) (negb (isPaused (gameState e)))).

(** [case k1: case k2: case k3:] of a switch on [key]. *)
Definition keyIs (key : string) (cases : list string) : bool :=
  existsb (String.eqb key) cases.

Definition handleKeyPress (key : string) (e : Engine) : Engine :=
  if negb (isPlaying e) || gameOver (gameState e) then e
  else
    let direction := direction (gameState e) in
    if keyIs key [" "] then togglePause e
    else
      let newDirection :=
        if keyIs key ["ArrowUp"; "w"; "W"]
        then (if negb (direction =? "DOWN")%string then "UP" else direction)
        else if keyIs key ["ArrowDown"; "s"; "S"]
        then (if negb (direction =? "UP")%string then "DOWN" else direction)
        else if keyIs key ["ArrowLeft"; "a"; "A"]
        then (if negb (direction =? "RIGHT")%string then "LEFT" else direction)
        else if keyIs key ["ArrowRight"; "d"; "D"]
        then (if negb (direction =? "LEFT")%string then "RIGHT" else direction)
        else direction in
      if negb (newDirection =? direction)%string
      then withGameState e (withDirection (gameState e) newDirection)
      else e.

Definition startGame (fuel : nat) (random : RandomSource) (e : Engine)
    : option Engine :=
  match generateFood fuel random INITIAL_SNAKE with
  | None => None
  | Some newFood =>
      Some (mkEngine (mkGameState INITIAL_SNAKE newFood "RIGHT" 0 false false)
                     (highScore e) true)
  end.

Definition resetGame (e : Engine) : Engine :=
  mkEngine (mkGameState INITIAL_SNAKE INITIAL_FOOD "RIGHT" 0 false false)
           (highScore e) false.

(** ** The engine as a state machine *)

(** The four states of the engine, read off the flags. *)
Inductive Phase : Type := Idle | Running | Paused | Over.

Definition phase (e : Engine) : Phase :=
  if negb (isPlaying e) then Idle
  else if gameOver (gameState e) then Over
  else if isPaused (gameState e) then Paused
  else Running.

(** What can happen to a mounted component: a click on Start, a firing of the
    timer, a key press, a click on Pause/Resume, a click on Reset.  The Start
    button is only rendered while [isPlaying] is false; [step] lets
    [startGame] run in any state, which can only add reachable states. *)
Inductive Command : Type :=
  | Start
  | Tick
  | KeyDown (key : string)
  | TogglePause
  | Reset.

Definition step (c : Command) (fuel : nat) (random : RandomSource) (e : Engine)
    : option Engine :=
  match c with
  | Start => startGame fuel random e
  | Tick => advanceTick fuel random e
  | KeyDown key => Some (handleKeyPress key e)
  | TogglePause => Some (togglePause e)
  | Reset => Some (resetGame e)
  end.

(** The states the component can be in: the one it mounts with, and every
    state a command leads to, whatever [Math.random()] returns meanwhile. *)
Inductive reachable : Engine -> Prop :=
  | reach_mount : forall hs, reachable (initialEngine hs)
  | reach_step : forall e c fuel random e',
      reachable e -> validSource random ->
      step c fuel random e = Some e' -> reachable e'.

(** [n] firings of the timer in a row, each with its own fuel and source. *)
Fixpoint advanceTicks (runs : list (nat * RandomSource)) (e : Engine)
    : option Engine :=
  match runs with
  | [] => Some e
  | (fuel, random) :: runs' =>
      match advanceTick fuel random e with
      | None => None
      | Some e' => advanceTicks runs' e'
      end
  end.

(** ** Predicates on states *)

Definition inGrid (c : Position) : Prop :=
  0 <= x c < GRID_SIZE /\ 0 <= y c < GRID_SIZE.

(** The data model of a game in progress: a non-empty snake of pairwise
    distinct cells of the grid, and a food cell of the grid off the snake. *)
Record wellFormed (s : GameState) : Prop := mkWellFormed {
  wf_nonempty : snake s <> [];
  wf_inGrid : Forall inGrid (snake s);
  wf_distinct : NoDup (snake s);
  wf_food_inGrid : inGrid (food s);
  wf_food_free : ~ In (food s) (snake s)
}.

(** The score counts the food eaten: 10 for each cell the snake has grown
    by. *)
Definition scoreCountsGrowth (s : GameState) : Prop :=
  score s = 10 * (Z.of_nat (List.length (snake s)) - 1).

(** A source is fair when every cell of the grid is built by some iteration
    of the sampling loop, as happens with probability 1 for uniform samples. *)
Definition fairSource (random : RandomSource) : Prop :=
  forall c, inGrid c -> exists k, draw random k = c.

(** The state [s] with the food cell replaced by [c]: two states agree in
    every field but the food when this makes them equal. *)
Definition withFood (s : GameState) (c : Position) : GameState :=
  mkGameState (snake s) c (direction s) (score s) (gameOver s) (isPaused s).

(** The head of the snake after the move, [snake[0]] moved along the heading. *)
Definition movedHead (s : GameState) : option Position :=
  match snake s with
  | [] => None
  | snake0 :: _ => Some (moveHead (direction s) snake0)
  end.

(** The state the food branch of [moveSnake] returns when the food is eaten
    and the new food is [newFood]. *)
Definition afterEating (e : Engine) (newFood : Position) : Engine :=
  mkEngine
    (mkGameState (food (gameState e) :: snake (gameState e)) newFood
                 (direction (gameState e)) (score (gameState e) + 10)
                 (gameOver (gameState e)) (isPaused (gameState e)))
    (if score (gameState e) + 10 >? highScore e
     then score (gameState e) + 10 else highScore e)
    (isPlaying e).

(** The heading a key asks for, by the cases of the switch in
    [handleKeyPress]. *)
Definition requestedHeading (key : string) : option string :=
  if keyIs key ["ArrowUp"; "w"; "W"] then Some "UP"
  else if keyIs key ["ArrowDown"; "s"; "S"] then Some "DOWN"
  else if keyIs key ["ArrowLeft"; "a"; "A"] then Some "LEFT"
  else if keyIs key ["ArrowRight"; "d"; "D"] then Some "RIGHT"
  else None.

(** The heading opposite to [h]. *)
Definition opposite (h : string) : string :=
  if (h =? "UP")%string then "DOWN"
  else if (h =? "DOWN")%string then "UP"
  else if (h =? "LEFT")%string then "RIGHT"
  else if (h =? "RIGHT")%string then "LEFT"
  else h.

(** All the cells of the grid, row by row. *)
Definition gridCells : list Position :=
  flat_map (fun cx => map (fun cy => mkPosition (Z.of_nat cx) (Z.of_nat cy))
                          (seq 0 (Z.to_nat GRID_SIZE)))
           (seq 0 (Z.to_nat GRID_SIZE)).

Definition Position_eq_dec (a b : Position) : {a = b} + {a <> b}.
Proof. decide equality; apply Z.eq_dec. Defined.

(** The number of cells a snake occupies. *)
Definition cellsOccupied (snake : list Position) : nat :=
  List.length (nodup Position_eq_dec snake).

(** The three flags fit together: a game that is over or paused is being
    played, and a game that is over is not paused. *)
Definition flagsConsistent (e : Engine) : Prop :=
  (gameOver (gameState e) = true -> isPlaying e = true) /\
  (isPaused (gameState e) = true -> isPlaying e = true) /\
  (gameOver (gameState e) = true -> isPaused (gameState e) = false).

(** The four headings the code ever stores in [direction]. *)
Definition validHeading (d : string) : Prop :=
  d = "UP" \/ d = "DOWN" \/ d = "LEFT" \/ d = "RIGHT".

(** Two cells that share a side. *)
Definition adjacent (a b : Position) : Prop :=
  Z.abs (x a - x b) + Z.abs (y a - y b) = 1.

(** Every cell of the snake shares a side with the next one. *)
Fixpoint contiguous (snake : list Position) : Prop :=
  match snake with
  | a :: rest =>
      match rest with
      | [] => True
      | b :: _ => adjacent a b /\ contiguous rest
      end
  | [] => True
  end.

(** ** Notifications, storage and the key handler *)

(** What the component does besides updating its state: the toasts it shows
    and the items it writes to [localStorage]. *)
Inductive Effect : Type :=
  | ToastError (message : string)
  | ToastSuccess (message : string)
  | ToastInfo (message : string)
  | SetItem (key value : string).

(** [n.toString()] and the value of [n] in a template literal, for an integer
    [n]: its decimal digits, after a minus sign when it is negative.  (This
    is what JavaScript prints for integers below 10^21 in magnitude.) *)
Definition numberToString (n : Z) : string :=
  NilZero.string_of_int (Z.to_int n).

(** The blanks [parseInt] skips, among the characters of ASCII: tab, line
    feed, vertical tab, form feed, carriage return and space. *)
Definition isWhiteSpace (c : ascii) : bool :=
  let n := nat_of_ascii c in
  ((n =? 9) || (n =? 10) || (n =? 11) || (n =? 12) || (n =? 13)
   || (n =? 32))%nat.

Definition isDigit (c : ascii) : bool :=
  let n := nat_of_ascii c in ((48 <=? n) && (n <=? 57))%nat.

Fixpoint trimStart (s : string) : string :=
  match s with
  | String c rest => if isWhiteSpace c then trimStart rest else s
  | EmptyString => s
  end.

Fixpoint digitPrefix (s : string) : string :=
  match s with
  | String c rest => if isDigit c then String c (digitPrefix rest) else ""
  | EmptyString => ""
  end.

(** [parseInt(s, 10)] on a string of ASCII characters: leading blanks are
    skipped, a sign is read, then the longest run of digits; [None] stands
    for [NaN], the result when there is no digit.  (Exact for results below
    2^53 in magnitude.) *)
Definition parseInt (s : string) : option Z :=
  let trimmed := trimStart s in
  let sign :=
    match trimmed with
    | String c _ => if (c =? "-")%char then -1 else 1
    | EmptyString => 1
    end in
  let unsigned :=
    match trimmed with
    | String c rest =>
        if (c =? "-")%char || (c =? "+")%char then rest else trimmed
    | EmptyString => trimmed
    end in
  match NilEmpty.uint_of_string (digitPrefix unsigned) with
  | None | Some Decimal.Nil => None
  | Some digits => Some (sign * Z.of_uint digits)
  end.

(** The effect that runs once when the component mounts: the high score
    starts at 0 and becomes [parseInt(savedHighScore, 10)] when
    [localStorage.getItem('snakeHighScore')] is a non-empty string.  [None]
    stands for a high score of [NaN]. *)
Definition loadHighScore (savedHighScore : option string) : option Z :=
  match savedHighScore with
  | None => Some 0
  | Some saved => if (saved =? "")%string then Some 0 else parseInt saved
  end.

(** [moveSnake] with its toasts and its write to [localStorage]. *)
Definition moveSnakeFx (fuel : nat) (random : RandomSource) (e : Engine)
    : option (Engine * list Effect) :=
  let prevState := gameState e in
  if gameOver prevState || isPaused prevState then Some (e, [])
  else
    match snake prevState with
    | [] => Some (e, [])
    | snake0 :: _ =>
        let head := moveHead (direction prevState) snake0 in
        let gameOverToast :=
          ToastError ("Game Over! Final Score: "
                      ++ numberToString (score prevState)) in
        if hitsWall head
        then Some (withGameState e (withGameOver prevState true),
                   [gameOverToast])
        else if occupied (snake prevState) head
        then Some (withGameState e (withGameOver prevState true),
                   [gameOverToast])
        else
          let newSnake := head :: snake prevState in
          if (x head =? x (food prevState)) && (y head =? y (food prevState))
          then
            let newScore := score prevState + 10 in
            match generateFood fuel random newSnake with
            | None => None
            | Some newFood =>
                Some (mkEngine
                        (mkGameState newSnake newFood (direction prevState)
                                     newScore (gameOver prevState)
                                     (isPaused prevState))
                        (if newScore >? highScore e then newScore
                         else highScore e)
                        (isPlaying e),
                      if newScore >? highScore e
                      then [SetItem "snakeHighScore" (numberToString newScore);
                            ToastSuccess ("New High Score: "
                                          ++ numberToString newScore ++ "!")]
                      else [ToastSuccess ("Score: "
                                          ++ numberToString newScore)])
            end
          else Some (withGameState e
                       (withSnake prevState (removelast newSnake)), [])
    end.

Definition advanceTickFx (fuel : nat) (random : RandomSource) (e : Engine)
    : option (Engine * list Effect) :=
  if loopActive e then moveSnakeFx fuel random e else Some (e, []).

Definition startGameFx (fuel : nat) (random : RandomSource) (e : Engine)
    : option (Engine * list Effect) :=
  match generateFood fuel random INITIAL_SNAKE with
  | None => None
  | Some newFood =>
      Some (mkEngine (mkGameState INITIAL_SNAKE newFood "RIGHT" 0 false false)
                     (highScore e) true,
            [ToastSuccess "Game Started! Use arrow keys or WASD to move"])
  end.

Definition resetGameFx (e : Engine) : Engine * list Effect :=
  (resetGame e, [ToastInfo "Game Reset"]).

(** The values a function defined during a render reads from that render:
    [isPlaying] and [gameState]. *)
Record Closure : Type := mkClosure {
  sawPlaying : bool;
  sawState : GameState
}.

Definition closureOf (e : Engine) : Closure :=
  mkClosure (isPlaying e) (gameState e).

(** [togglePause] as defined in the render [saw]: the guard and the text of
    the toast read the values of that render, the update
    [prev => ({ ...prev, isPaused: !prev.isPaused })] is applied to the state
    of the moment. *)
Definition togglePauseFx (saw : Closure) (e : Engine) : Engine * list Effect :=
  if negb (sawPlaying saw) || gameOver (sawState saw) then (e, [])
  else (withGameState e
          (withIsPaused (gameState e) (negb (isPaused (gameState e)))),
        [ToastInfo (if isPaused (sawState saw) then "Game Resumed"
                    else "Game Paused")]).

(** [handleKeyPress] as defined in the render [saw], which is also the
    render of the [togglePause] it calls. *)
Definition handleKeyPressFx (saw : Closure) (key : string) (e : Engine)
    : Engine * list Effect :=
  if negb (sawPlaying saw) || gameOver (sawState saw) then (e, [])
  else
    let direction := direction (sawState saw) in
    if keyIs key [" "] then togglePauseFx saw e
    else
      let newDirection :=
        if keyIs key ["ArrowUp"; "w"; "W"]
        then (if negb (direction =? "DOWN")%string then "UP" else direction)
        else if keyIs key ["ArrowDown"; "s"; "S"]
        then (if negb (direction =? "UP")%string then "DOWN" else direction)
        else if keyIs key ["ArrowLeft"; "a"; "A"]
        then (if negb (direction =? "RIGHT")%string then "LEFT" else direction)
        else if keyIs key ["ArrowRight"; "d"; "D"]
        then (if negb (direction =? "LEFT")%string then "RIGHT" else direction)
        else direction in
      if negb (newDirection =? direction)%string
      then (withGameState e (withDirection (gameState e) newDirection), [])
      else (e, []).

(** [useCallback(..., [isPlaying, gameState.gameOver, gameState.direction])]:
    after a render the key handler is the one of that render when one of the
    three values differs from what the handler in place saw, and the handler
    in place otherwise. *)
Definition renewKeyHandler (inPlace : Closure) (e : Engine) : Closure :=
  if Bool.eqb (sawPlaying inPlace) (isPlaying e)
     && Bool.eqb (gameOver (sawState inPlace)) (gameOver (gameState e))
     && (direction (sawState inPlace) =? direction (gameState e))%string
  then inPlace
  else closureOf e.

(** A handler sees what matters when the three values it is renewed on are
    those of the state of the moment. *)
Definition seesCurrent (saw : Closure) (e : Engine) : Prop :=
  sawPlaying saw = isPlaying e /\
  gameOver (sawState saw) = gameOver (gameState e) /\
  direction (sawState saw) = direction (gameState e).

(** The mounted component: its state, the key handler registered on the
    window, and the item ['snakeHighScore'] of [localStorage]. *)
Record Component : Type := mkComponent {
  engine : Engine;
  keyHandler : Closure;
  savedHighScore : option string
}.

(** The item ['snakeHighScore'] after the writes among [effects]. *)
Fixpoint storeEffects (effects : list Effect) (saved : option string)
    : option string :=
  match effects with
  | [] => saved
  | SetItem key value :: rest =>
      storeEffects rest
        (if (key =? "snakeHighScore")%string then Some value else saved)
  | _ :: rest => storeEffects rest saved
  end.

(** Mounting, with [saved] in [localStorage].  The engine keeps its high
    score as an integer, so there is no component to speak of when the saved
    string makes the high score [NaN]. *)
Definition mountComponent (saved : option string) : option Component :=
  match loadHighScore saved with
  | None => None
  | Some hs =>
      Some (mkComponent (initialEngine hs) (closureOf (initialEngine hs)) saved)
  end.

(** A command on the mounted component, followed by the render it causes.
    The buttons call the functions of the render on screen; a key press calls
    the key handler in place. *)
Definition componentStep (c : Command) (fuel : nat) (random : RandomSource)
    (w : Component) : option (Component * list Effect) :=
  let outcome :=
    match c with
    | Start => startGameFx fuel random (engine w)
    | Tick => advanceTickFx fuel random (engine w)
    | KeyDown key => Some (handleKeyPressFx (keyHandler w) key (engine w))
    | TogglePause => Some (togglePauseFx (closureOf (engine w)) (engine w))
    | Reset => Some (resetGameFx (engine w))
    end in
  match outcome with
  | None => None
  | Some (e', effects) =>
      Some (mkComponent e' (renewKeyHandler (keyHandler w) e')
                        (storeEffects effects (savedHighScore w)),
            effects)
  end.

Inductive reachableComponent : Component -> Prop :=
  | reach_mounted : forall saved w,
      mountComponent saved = Some w -> reachableComponent w
  | reach_componentStep : forall w c fuel random w' effects,
      reachableComponent w -> validSource random ->
      componentStep c fuel random w = Some (w', effects) ->
      reachableComponent w'.

(** ** Drawing and the controls *)

(** The calls the rendering effect makes on the 2D context of the canvas:
    [fillRect] under the [fillStyle] in force, and a line stroked from one
    point to another ([beginPath], [moveTo], [lineTo], [stroke]) under the
    [strokeStyle] and [lineWidth] in force. *)
Inductive DrawOp : Type :=
  | FillRect (fillStyle : string) (rx ry width height : Z)
  | StrokeLine (strokeStyle : string) (lineWidth : Z) (x1 y1 x2 y2 : Z).

(** [<canvas width={400} height={400}>] *)
Definition canvasWidth : Z := 400.
Definition canvasHeight : Z := 400.

(** [canvas.width / GRID_SIZE]: 400 / 20, an exact division. *)
Definition cellSize : Z := canvasWidth / GRID_SIZE.

(** The square drawn for a cell. *)
Definition cellRect (fillStyle : string) (c : Position) : DrawOp :=
  FillRect fillStyle (x c * cellSize + 1) (y c * cellSize + 1)
           (cellSize - 2) (cellSize - 2).

(** [gameState.snake.forEach((segment, index) => ...)], from [index] on. *)
Fixpoint drawSnake (index : nat) (snake : list Position) : list DrawOp :=
  match snake with
  | [] => []
  | segment :: rest =>
      cellRect (if (index =? 0)%nat then "#10b981" else "#059669") segment
      :: drawSnake (S index) rest
  end.

(** The two lines of the grid drawn for each [i] from 0 to [GRID_SIZE]. *)
Definition drawGrid : list DrawOp :=
  flat_map (fun i =>
              [StrokeLine "#1e293b" 1 (i * cellSize) 0 (i * cellSize)
                          canvasHeight;
               StrokeLine "#1e293b" 1 0 (i * cellSize) canvasWidth
                          (i * cellSize)])
           (map Z.of_nat (seq 0 (S (Z.to_nat GRID_SIZE)))).

(** The rendering effect, which runs after every change of [gameState]:
    nothing when the canvas has no 2D context, else the background, the grid,
    the snake and the food, in this order. *)
Definition render (hasContext : bool) (s : GameState) : list DrawOp :=
  if hasContext
  then FillRect "#0f172a" 0 0 canvasWidth canvasHeight
       :: drawGrid
       ++ drawSnake 0 (snake s)
       ++ [cellRect "#ef4444" (food s)]
  else [].

(** A drawing call that stays on the canvas. *)
Definition onCanvas (op : DrawOp) : Prop :=
  match op with
  | FillRect _ rx ry width height =>
      0 <= rx /\ 0 <= ry /\ 0 <= width /\ 0 <= height /\
      rx + width <= canvasWidth /\ ry + height <= canvasHeight
  | StrokeLine _ _ x1 y1 x2 y2 =>
      0 <= x1 <= canvasWidth /\ 0 <= x2 <= canvasWidth /\
      0 <= y1 <= canvasHeight /\ 0 <= y2 <= canvasHeight
  end.

(** Two filled rectangles with no pixel in common. *)
Definition apart (a b : DrawOp) : Prop :=
  match a, b with
  | FillRect _ l t w h, FillRect _ l' t' w' h' =>
      l + w <= l' \/ l' + w' <= l \/ t + h <= t' \/ t' + h' <= t
  | _, _ => False
  end.

(** What the JSX shows of the engine: which of the Start and Pause/Resume
    buttons is there, whether the latter is disabled and what it says, the
    two badges, and the three numbers. *)
Record View : Type := mkView {
  startButton : bool;
  pauseButton : bool;
  pauseButtonDisabled : bool;
  pauseButtonLabel : string;
  gameOverBadge : bool;
  pausedBadge : bool;
  scoreShown : Z;
  highScoreShown : Z;
  snakeLengthShown : nat
}.

Definition view (e : Engine) : View :=
  mkView (negb (isPlaying e))
         (isPlaying e)
         (gameOver (gameState e))
         (if isPaused (gameState e) then "Resume" else "Pause")
         (gameOver (gameState e))
         (isPaused (gameState e) && negb (gameOver (gameState e)))
         (score (gameState e))
         (highScore e)
         (List.length (snake (gameState e))).

(** ** Sample sources and states *)

(** The source whose every iteration builds the cell [(cx, cy)]. *)
Definition cellSource (cx cy : Z) : RandomSource :=
  fun n => if Nat.even n then cx # 20 else cy # 20.

(** The source that builds the cells of the grid one after the other:
    iteration [k] builds [(k / 20 mod 20, k mod 20)]. *)
Definition scanSource : RandomSource :=
  fun n =>
    if Nat.even n
    then Z.of_nat ((Nat.div2 n / 20) mod 20) # 20
    else Z.of_nat (Nat.div2 n mod 20) # 20.

(** A game in progress with the given cells, heading and pause flag. *)
Definition playing (snake : list Position) (food : Position)
    (direction : string) (isPaused : bool) : Engine :=
  mkEngine (mkGameState snake food direction 0 false isPaused) 0 true.

(** Right after Start, with the first food drawn next to the head. *)
Definition foodAhead : Engine :=
  playing [mkPosition 10 10] (mkPosition 11 10) "RIGHT" false.

(** A paused game: Start, with the first food drawn on (15,15), then Pause. *)
Definition pausedGame : Engine :=
  playing INITIAL_SNAKE INITIAL_FOOD "RIGHT" true.

(** A snake of four cells, grown on three food cells in a row and curled up
    so that a move upwards lands on its own last cell. *)
Definition curledSnake : Engine :=
  mkEngine (mkGameState [mkPosition 10 11; mkPosition 11 11;
                         mkPosition 11 10; mkPosition 10 10]
                        (mkPosition 3 4) "UP" 30 false false)
           30 true.

(** A snake of two cells heading right over free cells. *)
Definition twoCells : Engine :=
  playing [mkPosition 10 10; mkPosition 9 10] (mkPosition 3 4) "RIGHT" false.

(** A snake about to leave the grid on the left. *)
Definition atLeftWall : Engine :=
  playing [mkPosition 0 10] (mkPosition 3 4) "LEFT" false.

(** A snake about to leave the grid on the right. *)
Definition atRightWall : Engine :=
  playing [mkPosition 19 7; mkPosition 18 7] (mkPosition 3 4) "RIGHT" false.

(** The component after a mount with nothing saved, a click on Start that
    draws the first food next to the head, and the tick that eats it while
    the next food is drawn on (3,4). *)
Definition afterFirstFood : Component :=
  mkComponent
    (mkEngine (mkGameState [mkPosition 11 10; mkPosition 10 10]
                           (mkPosition 3 4) "RIGHT" 10 false false)
              10 true)
    (closureOf foodAhead)
    (Some "10").

(** *** A game played to the last free cell *)

(** The integers from [first] to [last]. *)
Definition fromTo (first last : Z) : list Z :=
  map (fun i => first + Z.of_nat i) (seq 0 (Z.to_nat (last - first + 1))).

(** The cells of column [cx] between rows [top] and [bottom], walked
    downwards or upwards. *)
Definition columnCells (cx top bottom : Z) (down : bool) : list Position :=
  map (mkPosition cx)
      (if down then fromTo top bottom else rev (fromTo top bottom)).

(** The cells of row [cy] between columns [left] and [right], walked to the
    right or to the left. *)
Definition rowCells (cy left right : Z) (rightwards : bool) : list Position :=
  map (fun cx => mkPosition cx cy)
      (if rightwards then fromTo left right else rev (fromTo left right)).

(** A walk over all 400 cells of the grid that starts on the cell of
    [INITIAL_SNAKE], heads right first and never crosses itself. *)
Definition tour : list Position :=
  rowCells 10 10 19 true
  ++ flat_map (fun cx => columnCells cx 11 19 (Z.odd cx)) (rev (fromTo 0 19))
  ++ rowCells 10 0 9 true
  ++ rowCells 9 0 9 false
  ++ flat_map (fun cx => columnCells cx 0 8 (Z.odd cx)) (fromTo 0 9)
  ++ flat_map (fun cx => columnCells cx 8 9 (Z.even cx)) (fromTo 10 19)
  ++ flat_map (fun cx => columnCells cx 0 7 (Z.even cx)) (rev (fromTo 10 19)).

(** The arrow key that turns the snake from cell [from] towards the
    neighbouring cell [to]. *)
Definition keyTowards (from to : Position) : string :=
  if x to >? x from then "ArrowRight"
  else if x to <? x from then "ArrowLeft"
  else if y to >? y from then "ArrowDown"
  else "ArrowUp".

(** A player who walks the snake along [cells], while every new food cell
    happens to be the cell after the next: before each firing of the timer
    the arrow key towards the next cell is pressed. *)
Fixpoint follow (cells : list Position) (e : Engine) : option Engine :=
  match cells with
  | [] => Some e
  | next :: cells' =>
      match cells' with
      | [] => Some e
      | after :: _ =>
          match snake (gameState e) with
          | [] => None
          | head :: _ =>
              match advanceTick 1 (cellSource (x after) (y after))
                                (handleKeyPress (keyTowards head next) e) with
              | None => None
              | Some e' => follow cells' e'
              end
          end
      end
  end.

(** The state of that game when one free cell is left: the snake lies on the
    first 399 cells of the tour, the food on the last. *)
Definition lastFood : Engine :=
  mkEngine (mkGameState (rev (removelast tour)) (last tour (mkPosition 0 0))
                        "DOWN" 3980 false false)
           3980 true.

(** * Basic facts *)

Lemma sameCell_spec (c segment : Position) :
  sameCell c segment = true <-> segment = c.
Proof.
  unfold sameCell. destruct c as [cx cy], segment as [sx sy]. simpl.
  rewrite andb_true_iff, !Z.eqb_eq. split.
  - intros [-> ->]. reflexivity.
  - intros H. injection H as -> ->. split; reflexivity.
Qed.

Lemma occupied_true (snake : list Position) (c : Position) :
  occupied snake c = true <-> In c snake.
Proof.
  unfold occupied. rewrite existsb_exists. split.
  - intros [s [Hin Hs]]. apply sameCell_spec in Hs. subst. exact Hin.
  - intros Hin. exists c. split; [exact Hin | apply sameCell_spec; reflexivity].
Qed.

Lemma occupied_false (snake : list Position) (c : Position) :
  occupied snake c = false <-> ~ In c snake.
Proof.
  rewrite <- occupied_true. destruct (occupied snake c); split; congruence.
Qed.

Lemma hitsWall_false (head : Position) :
  hitsWall head = false <-> inGrid head.
Proof.
  unfold hitsWall, inGrid, GRID_SIZE.
  rewrite !orb_false_iff, !Z.ltb_ge, !Z.geb_leb, !Z.leb_gt. lia.
Qed.

Lemma hitsWall_true (head : Position) :
  hitsWall head = true <-> ~ inGrid head.
Proof.
  rewrite <- hitsWall_false. destruct (hitsWall head); split; congruence.
Qed.

Lemma randomCoord_range (r : Q) :
  (0 <= r)%Q -> (r < 1)%Q -> 0 <= randomCoord r < GRID_SIZE.
Proof.
  intros H0 H1. unfold randomCoord, GRID_SIZE. split.
  - change 0 with (Qfloor 0). apply Qfloor_resp_le.
    setoid_replace (0 : Q) with (0 * inject_Z 20)%Q by ring.
    apply Qmult_le_compat_r; [exact H0 | discriminate].
  - rewrite Zlt_Qlt. eapply Qle_lt_trans; [apply Qfloor_le |].
    setoid_replace (inject_Z 20) with (1 * inject_Z 20)%Q at 2 by ring.
    apply Qmult_lt_compat_r; [reflexivity | exact H1].
Qed.

Lemma validSource_dropTwo (random : RandomSource) :
  validSource random -> validSource (dropTwo random).
Proof. intros H n. apply H. Qed.

Lemma firstDraw_inGrid (random : RandomSource) :
  validSource random -> inGrid (firstDraw random).
Proof.
  intros H. split; simpl; apply randomCoord_range; apply H.
Qed.

(** ** The sampling loop *)

Lemma generateFood_free (fuel : nat) :
  forall random snake c,
    generateFood fuel random snake = Some c -> ~ In c snake.
Proof.
  induction fuel as [|fuel IH]; intros random snake c; simpl.
  - discriminate.
  - destruct (occupied snake (firstDraw random)) eqn:Hocc.
    + apply IH.
    + intros [= <-]. apply occupied_false. exact Hocc.
Qed.

Lemma generateFood_inGrid (fuel : nat) :
  forall random snake c,
    validSource random ->
    generateFood fuel random snake = Some c -> inGrid c.
Proof.
  induction fuel as [|fuel IH]; intros random snake c Hvalid; simpl.
  - discriminate.
  - destruct (occupied snake (firstDraw random)).
    + apply IH, validSource_dropTwo, Hvalid.
    + intros [= <-]. apply firstDraw_inGrid, Hvalid.
Qed.

(** The loop ends at the latest with the first iteration that builds a free
    cell. *)
Lemma generateFood_returns (k : nat) :
  forall random snake,
    ~ In (draw random k) snake ->
    exists c, generateFood (S k) random snake = Some c.
Proof.
  induction k as [|k IH]; intros random snake Hfree.
  - simpl in *. apply occupied_false in Hfree. rewrite Hfree. eauto.
  - cbn [generateFood]. cbv zeta.
    destruct (occupied snake (firstDraw random)).
    + apply IH. exact Hfree.
    + eauto.
Qed.

(** More fuel does not change a result. *)
Lemma generateFood_more_fuel (fuel : nat) :
  forall fuel' random snake c,
    (fuel <= fuel')%nat ->
    generateFood fuel random snake = Some c ->
    generateFood fuel' random snake = Some c.
Proof.
  induction fuel as [|fuel IH]; intros fuel' random snake c Hle; simpl.
  - discriminate.
  - destruct fuel' as [|fuel']; [lia|]. simpl.
    destruct (occupied snake (firstDraw random)).
    + apply IH. lia.
    + trivial.
Qed.

(** While every iteration builds an occupied cell the loop goes on. *)
Lemma generateFood_runs_on (fuel : nat) :
  forall random snake,
    (forall k, In (draw random k) snake) ->
    generateFood fuel random snake = None.
Proof.
  induction fuel as [|fuel IH]; intros random snake Hall; simpl.
  - reflexivity.
  - pose proof (Hall 0%nat) as H0. simpl in H0.
    apply occupied_true in H0. rewrite H0.
    apply IH. intros k. apply (Hall (S k)).
Qed.

(** ** The grid *)

Lemma gridCells_spec (c : Position) : In c gridCells <-> inGrid c.
Proof.
  unfold gridCells, inGrid, GRID_SIZE. rewrite in_flat_map. split.
  - intros [cx [Hx Hc]]. apply in_map_iff in Hc. destruct Hc as [cy [<- Hy]].
    apply in_seq in Hx. apply in_seq in Hy. simpl in *. lia.
  - intros [Hx Hy]. exists (Z.to_nat (x c)). split.
    + apply in_seq. lia.
    + apply in_map_iff. exists (Z.to_nat (y c)). split.
      * destruct c as [cx cy]. simpl in *. f_equal; lia.
      * apply in_seq. lia.
Qed.

Lemma gridCells_NoDup : NoDup gridCells.
Proof.
  replace gridCells with (nodup Position_eq_dec gridCells)
    by (vm_compute; reflexivity).
  apply NoDup_nodup.
Qed.

Lemma gridCells_length : List.length gridCells = 400%nat.
Proof. vm_compute. reflexivity. Qed.

(** A snake on fewer than 400 cells leaves a cell of the grid free. *)
Lemma free_cell_exists (snake : list Position) :
  (cellsOccupied snake < 400)%nat ->
  exists c, inGrid c /\ ~ In c snake.
Proof.
  intros Hlt.
  destruct (find (fun c => negb (occupied snake c)) gridCells) as [c|] eqn:Hfind.
  - apply find_some in Hfind. destruct Hfind as [Hin Hfree].
    exists c. split.
    + apply gridCells_spec. exact Hin.
    + apply occupied_false. apply negb_true_iff. exact Hfree.
  - exfalso.
    assert (Hincl : incl gridCells (nodup Position_eq_dec snake)).
    { intros c Hin. apply nodup_In. apply occupied_true.
      pose proof (find_none _ _ Hfind c Hin) as Hc.
      apply negb_false_iff. exact Hc. }
    apply (NoDup_incl_length gridCells_NoDup) in Hincl.
    rewrite gridCells_length in Hincl. unfold cellsOccupied in Hlt. lia.
Qed.

(** ** Dropping the last cell *)

Lemma In_removelast (A : Type) (a : A) (l : list A) :
  In a (removelast l) -> In a l.
Proof.
  induction l as [|b l IH]; simpl; [tauto|].
  destruct l as [|b' l]; simpl in *; [tauto|]. intuition.
Qed.

Lemma NoDup_removelast (A : Type) (l : list A) :
  NoDup l -> NoDup (removelast l).
Proof.
  induction 1 as [|b l Hnotin Hnd IH]; simpl; [constructor|].
  destruct l as [|b' l]; [constructor|].
  constructor; [|exact IH].
  intros Hin. apply Hnotin. apply In_removelast. exact Hin.
Qed.

Lemma Forall_removelast (A : Type) (P : A -> Prop) (l : list A) :
  Forall P l -> Forall P (removelast l).
Proof.
  intros H. apply Forall_forall. intros a Hin.
  apply (proj1 (Forall_forall P l) H). apply In_removelast. exact Hin.
Qed.

Lemma removelast_cons (A : Type) (a b : A) (l : list A) :
  removelast (a :: b :: l) = a :: removelast (b :: l).
Proof. reflexivity. Qed.

Lemma length_removelast_cons (A : Type) (a : A) (l : list A) :
  List.length (removelast (a :: l)) = List.length l.
Proof.
  revert a. induction l as [|b l IH]; intros a; [reflexivity|].
  rewrite removelast_cons. cbn [List.length]. f_equal. apply IH.
Qed.

Lemma last_In (A : Type) (d : A) (l : list A) :
  l <> [] -> In (last l d) l.
Proof.
  intros Hne. rewrite (app_removelast_last d Hne) at 2.
  apply in_or_app. right. left. reflexivity.
Qed.

(** In a snake of distinct cells the last cell is gone once it is dropped. *)
Lemma last_not_in_removelast (A : Type) (d : A) (l : list A) :
  l <> [] -> NoDup l -> ~ In (last l d) (removelast l).
Proof.
  intros Hne Hnd Hin.
  pose proof (app_removelast_last d Hne) as Heq.
  rewrite Heq in Hnd. apply NoDup_remove_2 in Hnd.
  apply Hnd. rewrite app_nil_r. exact Hin.
Qed.

(** ** The branches of [moveSnake] *)

Lemma movedHead_Some (s : GameState) (h : Position) :
  movedHead s = Some h ->
  exists snake0 rest,
    snake s = snake0 :: rest /\ h = moveHead (direction s) snake0.
Proof.
  unfold movedHead. destruct (snake s) as [|snake0 rest]; [discriminate|].
  intros [= <-]. eauto.
Qed.

Lemma moveSnake_halted (fuel : nat) (random : RandomSource) (e : Engine) :
  gameOver (gameState e) || isPaused (gameState e) = true ->
  moveSnake fuel random e = Some e.
Proof. intros H. unfold moveSnake. rewrite H. reflexivity. Qed.

Lemma moveSnake_collision (fuel : nat) (random : RandomSource) (e : Engine)
    (h : Position) :
  gameOver (gameState e) || isPaused (gameState e) = false ->
  movedHead (gameState e) = Some h ->
  hitsWall h || occupied (snake (gameState e)) h = true ->
  moveSnake fuel random e
  = Some (withGameState e (withGameOver (gameState e) true)).
Proof.
  intros Hrun Hh Hhit. apply movedHead_Some in Hh.
  destruct Hh as [snake0 [rest [Hsnake ->]]].
  unfold moveSnake. rewrite Hrun, Hsnake. cbv zeta. rewrite <- Hsnake.
  destruct (hitsWall (moveHead (direction (gameState e)) snake0));
    [reflexivity|].
  simpl in Hhit. rewrite Hhit. reflexivity.
Qed.

Lemma moveSnake_eat (fuel : nat) (random : RandomSource) (e : Engine)
    (h : Position) :
  gameOver (gameState e) || isPaused (gameState e) = false ->
  movedHead (gameState e) = Some h ->
  hitsWall h = false ->
  occupied (snake (gameState e)) h = false ->
  h = food (gameState e) ->
  moveSnake fuel random e
  = match generateFood fuel random (h :: snake (gameState e)) with
    | None => None
    | Some newFood =>
        Some (mkEngine
                (mkGameState (h :: snake (gameState e)) newFood
                             (direction (gameState e))
                             (score (gameState e) + 10)
                             (gameOver (gameState e))
                             (isPaused (gameState e)))
                (if score (gameState e) + 10 >? highScore e
                 then score (gameState e) + 10 else highScore e)
                (isPlaying e))
    end.
Proof.
  intros Hrun Hh Hwall Hocc Hfood. apply movedHead_Some in Hh.
  destruct Hh as [snake0 [rest [Hsnake Hhead]]].
  unfold moveSnake. rewrite Hrun, Hsnake. cbv zeta.
  rewrite <- Hsnake, <- Hhead, Hwall, Hocc, <- Hfood, !Z.eqb_refl.
  reflexivity.
Qed.

Lemma moveSnake_advance (fuel : nat) (random : RandomSource) (e : Engine)
    (h : Position) :
  gameOver (gameState e) || isPaused (gameState e) = false ->
  movedHead (gameState e) = Some h ->
  hitsWall h = false ->
  occupied (snake (gameState e)) h = false ->
  h <> food (gameState e) ->
  moveSnake fuel random e
  = Some (withGameState e
            (withSnake (gameState e) (h :: removelast (snake (gameState e))))).
Proof.
  intros Hrun Hh Hwall Hocc Hfood. apply movedHead_Some in Hh.
  destruct Hh as [snake0 [rest [Hsnake Hhead]]].
  unfold moveSnake. rewrite Hrun, Hsnake. cbv zeta.
  rewrite <- Hhead, Hwall.
  rewrite <- Hsnake, Hocc.
  change ((x h =? x (food (gameState e))) && (y h =? y (food (gameState e))))
    with (sameCell (food (gameState e)) h).
  destruct (sameCell (food (gameState e)) h) eqn:Hsame.
  - apply sameCell_spec in Hsame. contradiction.
  - rewrite Hsnake, removelast_cons. reflexivity.
Qed.

Lemma moveSnake_empty (fuel : nat) (random : RandomSource) (e : Engine) :
  snake (gameState e) = [] -> moveSnake fuel random e = Some e.
Proof.
  intros H. unfold moveSnake. rewrite H.
  destruct (gameOver (gameState e) || isPaused (gameState e)); reflexivity.
Qed.

Lemma loopActive_Running (e : Engine) :
  loopActive e = true <-> phase e = Running.
Proof.
  unfold loopActive, phase.
  destruct (isPlaying e), (gameOver (gameState e)), (isPaused (gameState e));
    simpl; split; congruence.
Qed.

Lemma Running_flags (e : Engine) :
  phase e = Running ->
  isPlaying e = true /\
  gameOver (gameState e) = false /\ isPaused (gameState e) = false.
Proof.
  unfold phase.
  destruct (isPlaying e), (gameOver (gameState e)), (isPaused (gameState e));
    simpl; intros H; try discriminate; auto.
Qed.

Lemma advanceTick_Running (fuel : nat) (random : RandomSource) (e : Engine) :
  phase e = Running -> advanceTick fuel random e = moveSnake fuel random e.
Proof.
  intros H. apply loopActive_Running in H. unfold advanceTick.
  rewrite H. reflexivity.
Qed.

Lemma Running_not_halted (e : Engine) :
  phase e = Running ->
  gameOver (gameState e) || isPaused (gameState e) = false.
Proof.
  intros H. apply Running_flags in H. destruct H as [_ [-> ->]]. reflexivity.
Qed.

(** ** Well-formedness is kept by every command *)

Ltac split_ifs :=
  repeat match goal with
         | |- context [if ?b then _ else _] => destruct b
         end.

Lemma wellFormed_same_cells (s s' : GameState) :
  snake s' = snake s -> food s' = food s -> wellFormed s -> wellFormed s'.
Proof.
  intros Hs Hf [H1 H2 H3 H4 H5].
  constructor; rewrite ?Hs, ?Hf; assumption.
Qed.

Lemma wellFormed_initial : wellFormed initialGameState.
Proof.
  constructor; simpl.
  - discriminate.
  - repeat constructor; unfold GRID_SIZE; simpl; lia.
  - repeat constructor. simpl. tauto.
  - unfold inGrid, GRID_SIZE. simpl. lia.
  - intros [H|[]]. discriminate.
Qed.

Lemma togglePause_cells (e : Engine) :
  snake (gameState (togglePause e)) = snake (gameState e) /\
  food (gameState (togglePause e)) = food (gameState e).
Proof. unfold togglePause. split_ifs; split; reflexivity. Qed.

Lemma handleKeyPress_cells (key : string) (e : Engine) :
  snake (gameState (handleKeyPress key e)) = snake (gameState e) /\
  food (gameState (handleKeyPress key e)) = food (gameState e).
Proof.
  unfold handleKeyPress.
  destruct (negb (isPlaying e) || gameOver (gameState e)); [tauto|].
  destruct (keyIs key [" "]); [apply togglePause_cells|].
  cbv zeta. split_ifs; split; reflexivity.
Qed.

Lemma startGame_wellFormed (fuel : nat) (random : RandomSource)
    (e e' : Engine) :
  validSource random ->
  startGame fuel random e = Some e' -> wellFormed (gameState e').
Proof.
  intros Hvalid. unfold startGame.
  destruct (generateFood fuel random INITIAL_SNAKE) as [newFood|] eqn:Hgen;
    [|discriminate].
  intros [= <-]. constructor; cbn [gameState snake food withGameState withSnake].
  - discriminate.
  - apply wellFormed_initial.
  - apply wellFormed_initial.
  - eapply generateFood_inGrid; eassumption.
  - eapply generateFood_free; eassumption.
Qed.

Lemma moveSnake_wellFormed (fuel : nat) (random : RandomSource)
    (e e' : Engine) :
  validSource random ->
  wellFormed (gameState e) ->
  moveSnake fuel random e = Some e' -> wellFormed (gameState e').
Proof.
  intros Hvalid Hwf.
  destruct (gameOver (gameState e) || isPaused (gameState e)) eqn:Hrun.
  { rewrite moveSnake_halted by exact Hrun. intros [= <-]. exact Hwf. }
  destruct (movedHead (gameState e)) as [h|] eqn:Hh.
  2:{ unfold movedHead in Hh. destruct (snake (gameState e)) eqn:Hs;
        [|discriminate].
      rewrite moveSnake_empty by exact Hs. intros [= <-]. exact Hwf. }
  destruct (hitsWall h || occupied (snake (gameState e)) h) eqn:Hhit.
  { rewrite (moveSnake_collision fuel random e h) by assumption.
    intros [= <-]. revert Hwf. apply wellFormed_same_cells; reflexivity. }
  apply orb_false_iff in Hhit. destruct Hhit as [Hwall Hocc].
  pose proof (proj1 (hitsWall_false h) Hwall) as HinGrid.
  pose proof (proj1 (occupied_false _ h) Hocc) as Hnotin.
  destruct Hwf as [Hne Hgrid Hnd Hfg Hff].
  destruct (Position_eq_dec h (food (gameState e))) as [Heq|Hneq].
  - rewrite (moveSnake_eat fuel random e h) by assumption.
    destruct (generateFood fuel random (h :: snake (gameState e)))
      as [newFood|] eqn:Hgen; [|discriminate].
    intros [= <-]. constructor; cbn [gameState snake food withGameState withSnake].
    + discriminate.
    + constructor; assumption.
    + constructor; assumption.
    + eapply generateFood_inGrid; eassumption.
    + eapply generateFood_free; eassumption.
  - rewrite (moveSnake_advance fuel random e h) by assumption.
    intros [= <-]. constructor; cbn [gameState snake food withGameState withSnake].
    + discriminate.
    + constructor; [assumption | apply Forall_removelast; assumption].
    + constructor.
      * intros Hin. apply Hnotin. apply In_removelast. exact Hin.
      * apply NoDup_removelast. exact Hnd.
    + exact Hfg.
    + intros [Hin|Hin]; [congruence|].
      apply Hff. apply In_removelast. exact Hin.
Qed.

Lemma step_wellFormed (c : Command) (fuel : nat) (random : RandomSource)
    (e e' : Engine) :
  validSource random ->
  wellFormed (gameState e) ->
  step c fuel random e = Some e' -> wellFormed (gameState e').
Proof.
  intros Hvalid Hwf. destruct c as [| |key| |]; simpl.
  - apply startGame_wellFormed. exact Hvalid.
  - unfold advanceTick. destruct (loopActive e).
    + apply moveSnake_wellFormed; assumption.
    + intros [= <-]. exact Hwf.
  - intros [= <-]. revert Hwf.
    apply wellFormed_same_cells; apply handleKeyPress_cells.
  - intros [= <-]. revert Hwf.
    apply wellFormed_same_cells; apply togglePause_cells.
  - intros [= <-]. apply wellFormed_initial.
Qed.

Lemma reachable_wellFormed (e : Engine) :
  reachable e -> wellFormed (gameState e).
Proof.
  induction 1 as [hs | e c fuel random e' _ IH Hvalid Hstep].
  - apply wellFormed_initial.
  - eapply step_wellFormed; eassumption.
Qed.

(** ** Sample sources *)

Lemma randomCoord_twentieth (z : Z) : randomCoord (z # 20) = z.
Proof.
  unfold randomCoord, GRID_SIZE, Qfloor, Qmult, inject_Z. simpl.
  apply Z.div_mul. discriminate.
Qed.

Lemma draw_index (k : nat) :
  forall random,
    draw random k
    = mkPosition (randomCoord (random (2 * k)%nat))
                 (randomCoord (random (S (2 * k)))).
Proof.
  induction k as [|k IH]; intros random; [reflexivity|].
  simpl draw. rewrite IH. unfold dropTwo.
  replace (S (S (2 * k))) with (2 * S k)%nat by lia.
  replace (S (S (S (2 * k)))) with (S (2 * S k))%nat by lia.
  reflexivity.
Qed.

Lemma draw_inGrid (random : RandomSource) (k : nat) :
  validSource random -> inGrid (draw random k).
Proof.
  intros H. rewrite draw_index.
  split; simpl; apply randomCoord_range; apply H.
Qed.

Lemma cellSource_valid (cx cy : Z) :
  0 <= cx < 20 -> 0 <= cy < 20 -> validSource (cellSource cx cy).
Proof.
  intros Hx Hy n. unfold cellSource, Qle, Qlt.
  destruct (Nat.even n); simpl; lia.
Qed.

Lemma cellSource_draw (cx cy : Z) (k : nat) :
  draw (cellSource cx cy) k = mkPosition cx cy.
Proof.
  rewrite draw_index. unfold cellSource.
  rewrite Nat.even_succ, <- Nat.negb_even, Nat.even_mul. simpl.
  rewrite !randomCoord_twentieth. reflexivity.
Qed.

Lemma scanSource_valid : validSource scanSource.
Proof.
  intros n. unfold scanSource, Qle, Qlt.
  pose proof (Nat.mod_upper_bound (Nat.div2 n / 20) 20 ltac:(discriminate)).
  pose proof (Nat.mod_upper_bound (Nat.div2 n) 20 ltac:(discriminate)).
  destruct (Nat.even n); cbn [Qnum Qden]; lia.
Qed.

Lemma scanSource_draw (k : nat) :
  draw scanSource k
  = mkPosition (Z.of_nat ((k / 20) mod 20)) (Z.of_nat (k mod 20)).
Proof.
  rewrite draw_index. unfold scanSource.
  rewrite Nat.even_succ, <- Nat.negb_even, Nat.even_mul.
  change (Nat.even 2) with true. cbn [orb negb].
  rewrite Nat.div2_succ_double, Nat.div2_double.
  rewrite !randomCoord_twentieth. reflexivity.
Qed.

Lemma scanSource_fair : fairSource scanSource.
Proof.
  intros [cx cy] [Hx Hy]. unfold GRID_SIZE in *. simpl in *.
  exists (20 * Z.to_nat cx + Z.to_nat cy)%nat.
  rewrite scanSource_draw.
  assert (Hcy : (Z.to_nat cy < 20)%nat) by lia.
  assert (Hcx : (Z.to_nat cx < 20)%nat) by lia.
  rewrite (Nat.mul_comm 20), Nat.div_add_l by discriminate.
  rewrite (Nat.div_small _ _ Hcy), Nat.add_0_r, (Nat.mod_small _ _ Hcx).
  rewrite Nat.add_comm, Nat.Div0.mod_add, (Nat.mod_small _ _ Hcy).
  f_equal; lia.
Qed.

(** ** Termination of the sampling loop on a fair source *)

Lemma cellsOccupied_le_length (snake : list Position) :
  (cellsOccupied snake <= List.length snake)%nat.
Proof.
  unfold cellsOccupied. apply NoDup_incl_length.
  - apply NoDup_nodup.
  - intros c Hin. apply nodup_In in Hin. exact Hin.
Qed.

Lemma generateFood_fair (random : RandomSource) (snake : list Position) :
  fairSource random ->
  (cellsOccupied snake < 400)%nat ->
  exists fuel c, generateFood fuel random snake = Some c.
Proof.
  intros Hfair Hlt.
  destruct (free_cell_exists snake Hlt) as [c [Hgrid Hfree]].
  destruct (Hfair c Hgrid) as [k Hk].
  exists (S k). apply generateFood_returns. rewrite Hk. exact Hfree.
Qed.

(** ** Reaching the sample states *)

Lemma foodAhead_reachable : reachable foodAhead.
Proof.
  apply (reach_step (initialEngine 0) Start 1 (cellSource 11 10)).
  - apply reach_mount.
  - apply cellSource_valid; lia.
  - reflexivity.
Qed.

Lemma startGame_returns (random : RandomSource) (e : Engine) :
  fairSource random -> exists fuel started, startGame fuel random e = Some started.
Proof.
  intros Hfair.
  destruct (generateFood_fair random INITIAL_SNAKE Hfair) as [fuel [c Hgen]].
  { vm_compute. lia. }
  exists fuel. unfold startGame. rewrite Hgen. eauto.
Qed.

(** ** Heading keys *)

Lemma requestedHeading_cases (key h : string) :
  requestedHeading key = Some h ->
  (keyIs key [" "] = false) /\
  ((keyIs key ["ArrowUp"; "w"; "W"] = true /\ h = "UP") \/
   (keyIs key ["ArrowUp"; "w"; "W"] = false /\
    keyIs key ["ArrowDown"; "s"; "S"] = true /\ h = "DOWN") \/
   (keyIs key ["ArrowUp"; "w"; "W"] = false /\
    keyIs key ["ArrowDown"; "s"; "S"] = false /\
    keyIs key ["ArrowLeft"; "a"; "A"] = true /\ h = "LEFT") \/
   (keyIs key ["ArrowUp"; "w"; "W"] = false /\
    keyIs key ["ArrowDown"; "s"; "S"] = false /\
    keyIs key ["ArrowLeft"; "a"; "A"] = false /\
    keyIs key ["ArrowRight"; "d"; "D"] = true /\ h = "RIGHT")).
Proof.
  unfold requestedHeading. intros H. split.
  - unfold keyIs in *. simpl in *.
    destruct (String.eqb_spec key " ") as [->|]; [discriminate|].
    reflexivity.
  - destruct (keyIs key ["ArrowUp"; "w"; "W"]);
      [injection H as <-; tauto|].
    destruct (keyIs key ["ArrowDown"; "s"; "S"]);
      [injection H as <-; tauto|].
    destruct (keyIs key ["ArrowLeft"; "a"; "A"]);
      [injection H as <-; tauto|].
    destruct (keyIs key ["ArrowRight"; "d"; "D"]);
      [injection H as <-; tauto|].
    discriminate.
Qed.

Lemma guard_phase (e : Engine) :
  negb (isPlaying e) || gameOver (gameState e) = true <->
  phase e = Idle \/ phase e = Over.
Proof.
  unfold phase.
  destruct (isPlaying e), (gameOver (gameState e)), (isPaused (gameState e));
    simpl; split; intros H; try reflexivity; try tauto;
    try discriminate; destruct H; discriminate.
Qed.

(** What [handleKeyPress] does with a heading key once the guard and the
    space case are passed, in terms of the requested heading [h] and the
    heading [back] it must not reverse. *)
Lemma heading_update (e : Engine) (h back : string) :
  h <> back ->
  (if negb ((if negb (direction (gameState e) =? back)%string
             then h else direction (gameState e))
            =? direction (gameState e))%string
   then withGameState e
          (withDirection (gameState e)
             (if negb (direction (gameState e) =? back)%string
              then h else direction (gameState e)))
   else e)
  = if (direction (gameState e) =? back)%string
       || (direction (gameState e) =? h)%string
    then e
    else withGameState e (withDirection (gameState e) h).
Proof.
  intros Hne.
  destruct (String.eqb_spec (direction (gameState e)) back) as [Hb|Hb];
    simpl.
  - rewrite String.eqb_refl. reflexivity.
  - rewrite (String.eqb_sym h).
    destruct (direction (gameState e) =? h)%string; reflexivity.
Qed.

(** ** A game played to the last free cell *)

Lemma tour_inGrid : Forall inGrid tour.
Proof.
  apply Forall_forall. intros c Hin.
  assert (H : forallb (fun c => negb (hitsWall c)) tour = true)
    by (vm_compute; reflexivity).
  rewrite forallb_forall in H. specialize (H c Hin).
  apply hitsWall_false. apply negb_true_iff. exact H.
Qed.

Lemma follow_reachable (cells : list Position) :
  forall e e',
    Forall inGrid cells -> reachable e ->
    follow cells e = Some e' -> reachable e'.
Proof.
  induction cells as [|next cells IH]; intros e e' Hgrid Hreach.
  - intros [= <-]. exact Hreach.
  - cbn [follow]. destruct cells as [|after cells'].
    + intros [= <-]. exact Hreach.
    + destruct (snake (gameState e)) as [|head rest]; [discriminate|].
      destruct (advanceTick 1 (cellSource (x after) (y after))
                  (handleKeyPress (keyTowards head next) e))
        as [e1|] eqn:Htick; [|discriminate].
      apply IH.
      * inversion Hgrid. assumption.
      * apply (reach_step (handleKeyPress (keyTowards head next) e) Tick 1
                 (cellSource (x after) (y after))).
        -- apply (reach_step e (KeyDown (keyTowards head next)) 0 scanSource).
           ++ exact Hreach.
           ++ exact scanSource_valid.
           ++ reflexivity.
        -- inversion Hgrid as [|? ? _ Hrest]. inversion Hrest as [|? ? Hafter _].
           apply cellSource_valid; apply Hafter.
        -- exact Htick.
Qed.

Lemma follow_tour : follow (tl tour) foodAhead = Some lastFood.
Proof. vm_compute. reflexivity. Qed.

Lemma lastFood_reachable : reachable lastFood.
Proof.
  apply (follow_reachable (tl tour) foodAhead).
  - pose proof tour_inGrid as H. inversion H. assumption.
  - exact foodAhead_reachable.
  - exact follow_tour.
Qed.

Lemma curledSnake_reachable : reachable curledSnake.
Proof.
  apply (reach_step
           (mkEngine (mkGameState [mkPosition 10 11; mkPosition 11 11;
                                   mkPosition 11 10; mkPosition 10 10]
                                  (mkPosition 3 4) "LEFT" 30 false false)
                     30 true)
           (KeyDown "ArrowUp") 0 scanSource).
  - apply (follow_reachable
             [mkPosition 11 10; mkPosition 11 11; mkPosition 10 11;
              mkPosition 3 4] foodAhead).
    + repeat constructor; unfold GRID_SIZE; simpl; lia.
    + exact foodAhead_reachable.
    + reflexivity.
  - exact scanSource_valid.
  - reflexivity.
Qed.

Lemma lastFood_covers_grid (c : Position) :
  inGrid c ->
  In c (food (gameState lastFood) :: snake (gameState lastFood)).
Proof.
  intros Hc. apply gridCells_spec in Hc.
  assert (H : forallb (occupied (food (gameState lastFood)
                                   :: snake (gameState lastFood)))
                      gridCells = true)
    by (vm_compute; reflexivity).
  rewrite forallb_forall in H. apply occupied_true. apply H. exact Hc.
Qed.

(** On a snake that covers the grid the sampling loop never ends, whatever
    [Math.random()] returns. *)
Lemma generateFood_full_grid (fuel : nat) (random : RandomSource)
    (snake : list Position) :
  validSource random ->
  (forall c, inGrid c -> In c snake) ->
  generateFood fuel random snake = None.
Proof.
  intros Hvalid Hfull. apply generateFood_runs_on.
  intros k. apply Hfull. apply draw_inGrid. exact Hvalid.
Qed.

(** ** The tick that eats *)

(** Two runs of the sampling loop that both return, return the same cell. *)
Lemma generateFood_agree (fuel : nat) :
  forall fuel' random snake c c',
    generateFood fuel random snake = Some c ->
    generateFood fuel' random snake = Some c' -> c' = c.
Proof.
  intros fuel' random snake c c' H H'.
  apply (generateFood_more_fuel fuel (Nat.max fuel fuel')) in H; [|lia].
  apply (generateFood_more_fuel fuel' (Nat.max fuel fuel')) in H'; [|lia].
  congruence.
Qed.

(** In a reachable Running state whose moved head is the food cell, the tick
    takes the food branch of [moveSnake]. *)
Lemma advanceTick_on_food (e : Engine) :
  reachable e ->
  phase e = Running ->
  movedHead (gameState e) = Some (food (gameState e)) ->
  forall fuel random,
    advanceTick fuel random e
    = match generateFood fuel random
              (food (gameState e) :: snake (gameState e)) with
      | None => None
      | Some newFood => Some (afterEating e newFood)
      end.
Proof.
  intros Hreach Hrun Hh fuel random.
  apply reachable_wellFormed in Hreach.
  destruct Hreach as [_ _ _ Hfg Hff].
  rewrite advanceTick_Running by exact Hrun.
  apply moveSnake_eat.
  - apply Running_not_halted. exact Hrun.
  - exact Hh.
  - apply hitsWall_false. exact Hfg.
  - apply occupied_false. exact Hff.
  - reflexivity.
Qed.

(** * The properties of the specification *)

(** C1. In every reachable state the cells of the snake are pairwise
    distinct and each of them lies in the grid: 0 <= x < 20 and
    0 <= y < 20. *)
Theorem reachable_snake_distinct_in_grid (e : Engine) :
  reachable e ->
  NoDup (snake (gameState e)) /\
  Forall (fun c => 0 <= x c < 20 /\ 0 <= y c < 20) (snake (gameState e)).
Proof.
  intros Hreach. apply reachable_wellFormed in Hreach.
  destruct Hreach as [_ Hgrid Hnd _ _]. split; assumption.
Qed.

Lemma reachable_snake_distinct_in_grid_witness :
  NoDup [mkPosition 11 10; mkPosition 10 10] /\
  Forall (fun c => 0 <= x c < 20 /\ 0 <= y c < 20)
         [mkPosition 11 10; mkPosition 10 10].
Proof.
  apply (reachable_snake_distinct_in_grid
           (mkEngine (mkGameState [mkPosition 11 10; mkPosition 10 10]
                                  (mkPosition 3 4) "RIGHT" 10 false false)
                     10 true)).
  apply (reach_step foodAhead Tick 1 (cellSource 3 4)).
  - exact foodAhead_reachable.
  - apply cellSource_valid; lia.
  - reflexivity.
Defined.

(** C2, as stated, fails: in the reachable Running state [lastFood] the
    snake has 399 cells and its moved head is the food cell, the last free
    cell of the grid, yet no firing of the timer returns, so no length, score
    or food comes out of it. *)
Lemma last_food_tick_never_returns :
  reachable lastFood /\
  phase lastFood = Running /\
  movedHead (gameState lastFood) = Some (food (gameState lastFood)) /\
  List.length (snake (gameState lastFood)) = 399%nat /\
  (forall fuel random,
      validSource random -> advanceTick fuel random lastFood = None).
Proof.
  split; [exact lastFood_reachable|].
  split; [reflexivity|].
  assert (Hh : movedHead (gameState lastFood)
               = Some (food (gameState lastFood)))
    by (vm_compute; reflexivity).
  split; [exact Hh|].
  split; [vm_compute; reflexivity|].
  intros fuel random Hvalid.
  rewrite advanceTick_Running by reflexivity.
  rewrite (moveSnake_eat fuel random lastFood (food (gameState lastFood))).
  - rewrite generateFood_full_grid; [reflexivity | exact Hvalid |].
    exact lastFood_covers_grid.
  - reflexivity.
  - exact Hh.
  - vm_compute. reflexivity.
  - vm_compute. reflexivity.
  - reflexivity.
Qed.

(** C2, amended. In a reachable Running state whose moved head is the food
    cell and whose snake, once grown, has fewer than 400 cells, a firing of
    the timer on a fair random source returns (with enough iterations of the
    sampling loop, always the same state): the food cell has been put in
    front of the snake, which is longer by exactly 1, the score is higher by
    exactly 10, and the new food is on a cell that is not in the grown
    snake. *)
Theorem advanceTick_eats_food (random : RandomSource) (e : Engine) :
  reachable e ->
  phase e = Running ->
  movedHead (gameState e) = Some (food (gameState e)) ->
  fairSource random ->
  (List.length (snake (gameState e)) < 399)%nat ->
  exists e',
    (exists fuel, forall fuel',
        (fuel <= fuel')%nat -> advanceTick fuel' random e = Some e') /\
    (forall fuel' e'', advanceTick fuel' random e = Some e'' -> e'' = e') /\
    snake (gameState e') = food (gameState e) :: snake (gameState e) /\
    List.length (snake (gameState e'))
    = S (List.length (snake (gameState e))) /\
    score (gameState e') = score (gameState e) + 10 /\
    ~ In (food (gameState e')) (snake (gameState e')).
Proof.
  intros Hreach Hrun Hh Hfair Hlen.
  pose proof (advanceTick_on_food e Hreach Hrun Hh) as Heq.
  destruct (generateFood_fair random
              (food (gameState e) :: snake (gameState e)) Hfair)
    as [fuel [c Hgen]].
  { pose proof (cellsOccupied_le_length
                  (food (gameState e) :: snake (gameState e))) as Hle.
    cbn [List.length] in Hle. lia. }
  exists (afterEating e c). split; [|split].
  - exists fuel. intros fuel' Hle. rewrite Heq.
    rewrite (generateFood_more_fuel fuel fuel' _ _ c Hle Hgen). reflexivity.
  - intros fuel' e''. rewrite Heq.
    destruct (generateFood fuel' random
                (food (gameState e) :: snake (gameState e)))
      as [c'|] eqn:Hgen'; [|discriminate].
    intros [= <-].
    rewrite (generateFood_agree _ _ _ _ _ _ Hgen Hgen'). reflexivity.
  - cbn [afterEating gameState snake score food List.length].
    repeat split.
    eapply generateFood_free. exact Hgen.
Qed.

Lemma advanceTick_eats_food_witness :
  exists e',
    (exists fuel, forall fuel',
        (fuel <= fuel')%nat -> advanceTick fuel' scanSource foodAhead = Some e') /\
    (forall fuel' e'',
        advanceTick fuel' scanSource foodAhead = Some e'' -> e'' = e') /\
    snake (gameState e')
    = food (gameState foodAhead) :: snake (gameState foodAhead) /\
    List.length (snake (gameState e'))
    = S (List.length (snake (gameState foodAhead))) /\
    score (gameState e') = score (gameState foodAhead) + 10 /\
    ~ In (food (gameState e')) (snake (gameState e')).
Proof.
  apply (advanceTick_eats_food scanSource foodAhead).
  - exact foodAhead_reachable.
  - reflexivity.
  - reflexivity.
  - exact scanSource_fair.
  - simpl. lia.
Defined.

(** The tick of the witness, evaluated: the first cell the scan builds is
    free, so one iteration of the sampling loop is enough. *)
Example advanceTick_eats_food_evaluated :
  advanceTick 1 scanSource foodAhead
  = Some (mkEngine (mkGameState [mkPosition 11 10; mkPosition 10 10]
                                (mkPosition 0 0) "RIGHT" 10 false false)
                   10 true).
Proof. reflexivity. Qed.

(** C3. In a Running state whose moved head stays in the grid, misses the
    body and misses the food, a firing of the timer puts the moved head in
    front of the snake and drops the last cell: the length is unchanged, the
    new head is one cell from the prior head along the heading (UP: y - 1,
    DOWN: y + 1, LEFT: x - 1, RIGHT: x + 1), nothing else changes, and the
    prior tail cell of a snake of distinct cells is no longer occupied. *)
Theorem advanceTick_moves_without_eating
    (fuel : nat) (random : RandomSource) (e : Engine) (h : Position) :
  phase e = Running ->
  movedHead (gameState e) = Some h ->
  inGrid h ->
  ~ In h (snake (gameState e)) ->
  h <> food (gameState e) ->
  exists priorHead rest e',
    snake (gameState e) = priorHead :: rest /\
    advanceTick fuel random e = Some e' /\
    e' = withGameState e
           (withSnake (gameState e) (h :: removelast (snake (gameState e)))) /\
    List.length (snake (gameState e')) = List.length (snake (gameState e)) /\
    hd_error (snake (gameState e')) = Some h /\
    (direction (gameState e) = "UP" ->
     h = mkPosition (x priorHead) (y priorHead - 1)) /\
    (direction (gameState e) = "DOWN" ->
     h = mkPosition (x priorHead) (y priorHead + 1)) /\
    (direction (gameState e) = "LEFT" ->
     h = mkPosition (x priorHead - 1) (y priorHead)) /\
    (direction (gameState e) = "RIGHT" ->
     h = mkPosition (x priorHead + 1) (y priorHead)) /\
    (NoDup (snake (gameState e)) ->
     ~ In (last (snake (gameState e)) priorHead) (snake (gameState e'))).
Proof.
  intros Hrun Hh Hgrid Hnotin Hfood.
  destruct (movedHead_Some _ _ Hh) as [priorHead [rest [Hsnake Hmove]]].
  exists priorHead, rest.
  eexists. split; [exact Hsnake|]. split.
  { rewrite advanceTick_Running by exact Hrun.
    apply (moveSnake_advance fuel random e h).
    - apply Running_not_halted. exact Hrun.
    - exact Hh.
    - apply hitsWall_false. exact Hgrid.
    - apply occupied_false. exact Hnotin.
    - exact Hfood. }
  split; [reflexivity|].
  cbn [gameState withGameState snake withSnake].
  split.
  { rewrite Hsnake. cbn [List.length]. f_equal. apply length_removelast_cons. }
  split; [reflexivity|].
  repeat split.
  - intros Hd. rewrite Hmove, Hd. reflexivity.
  - intros Hd. rewrite Hmove, Hd. reflexivity.
  - intros Hd. rewrite Hmove, Hd. reflexivity.
  - intros Hd. rewrite Hmove, Hd. reflexivity.
  - intros Hnd [Heq|Hin].
    + apply Hnotin. rewrite Heq. apply last_In.
      rewrite Hsnake. discriminate.
    + revert Hin. apply last_not_in_removelast; [|exact Hnd].
      rewrite Hsnake. discriminate.
Qed.

Lemma advanceTick_moves_without_eating_witness :
  exists priorHead rest e',
    snake (gameState twoCells) = priorHead :: rest /\
    advanceTick 0 scanSource twoCells = Some e' /\
    e' = withGameState twoCells
           (withSnake (gameState twoCells)
              (mkPosition 11 10 :: removelast (snake (gameState twoCells)))) /\
    List.length (snake (gameState e'))
    = List.length (snake (gameState twoCells)) /\
    hd_error (snake (gameState e')) = Some (mkPosition 11 10) /\
    (direction (gameState twoCells) = "UP" ->
     mkPosition 11 10 = mkPosition (x priorHead) (y priorHead - 1)) /\
    (direction (gameState twoCells) = "DOWN" ->
     mkPosition 11 10 = mkPosition (x priorHead) (y priorHead + 1)) /\
    (direction (gameState twoCells) = "LEFT" ->
     mkPosition 11 10 = mkPosition (x priorHead - 1) (y priorHead)) /\
    (direction (gameState twoCells) = "RIGHT" ->
     mkPosition 11 10 = mkPosition (x priorHead + 1) (y priorHead)) /\
    (NoDup (snake (gameState twoCells)) ->
     ~ In (last (snake (gameState twoCells)) priorHead)
          (snake (gameState e'))).
Proof.
  apply (advanceTick_moves_without_eating 0 scanSource twoCells
           (mkPosition 11 10)).
  - reflexivity.
  - reflexivity.
  - unfold inGrid, GRID_SIZE. simpl. lia.
  - simpl. intros [H|[H|[]]]; discriminate.
  - discriminate.
Defined.

(** The four headings on a concrete snake: one firing of the timer each. *)
Example advanceTick_moves_each_way :
  let s d := playing [mkPosition 5 5] (mkPosition 3 4) d false in
  let after d := option_map (fun e => snake (gameState e))
                            (advanceTick 0 scanSource (s d)) in
  after "UP" = Some [mkPosition 5 4] /\
  after "DOWN" = Some [mkPosition 5 6] /\
  after "LEFT" = Some [mkPosition 4 5] /\
  after "RIGHT" = Some [mkPosition 6 5].
Proof. repeat split; reflexivity. Qed.

(** C4. A firing of the timer in a state that is not Running (Idle, Paused
    or Over) leaves the whole state as it is.  In Paused and Over the state
    updater of [moveSnake] returns the state it was given as well. *)
Theorem advanceTick_not_Running_unchanged
    (fuel : nat) (random : RandomSource) (e : Engine) :
  phase e <> Running ->
  advanceTick fuel random e = Some e /\
  (phase e = Paused \/ phase e = Over -> moveSnake fuel random e = Some e).
Proof.
  intros Hphase. split.
  - unfold advanceTick. destruct (loopActive e) eqn:Hloop.
    + apply loopActive_Running in Hloop. contradiction.
    + reflexivity.
  - intros Hhalt. apply moveSnake_halted. revert Hhalt. unfold phase.
    destruct (isPlaying e), (gameOver (gameState e)),
      (isPaused (gameState e)); simpl; intros [H|H]; congruence.
Qed.

Lemma advanceTick_not_Running_unchanged_witness :
  advanceTick 5 scanSource pausedGame = Some pausedGame /\
  (phase pausedGame = Paused \/ phase pausedGame = Over ->
   moveSnake 5 scanSource pausedGame = Some pausedGame).
Proof.
  apply (advanceTick_not_Running_unchanged 5 scanSource pausedGame).
  discriminate.
Defined.

(** C5, as stated, fails: a heading key pressed while the game is paused
    changes the heading. *)
Lemma paused_heading_change :
  reachable pausedGame /\
  phase pausedGame = Paused /\
  requestedHeading "ArrowUp" = Some "UP" /\
  handleKeyPress "ArrowUp" pausedGame
  = playing INITIAL_SNAKE INITIAL_FOOD "UP" true /\
  handleKeyPress "ArrowUp" pausedGame <> pausedGame.
Proof.
  split; [|repeat split; try reflexivity; discriminate].
  apply (reach_step (playing INITIAL_SNAKE INITIAL_FOOD "RIGHT" false)
                    TogglePause 0 scanSource).
  - apply (reach_step (initialEngine 0) Start 1 (cellSource 15 15)).
    + apply reach_mount.
    + apply cellSource_valid; lia.
    + reflexivity.
  - exact scanSource_valid.
  - reflexivity.
Qed.

(** C5, amended. For a key that asks for the heading [h]: [handleKeyPress]
    leaves the state as it is when the engine is Idle or Over, when the
    current heading is the reverse of [h], or when it is [h] already; in
    every other case, Running or Paused, it sets the heading to [h] and
    changes no other field. *)
Theorem handleKeyPress_sets_heading (key h : string) (e : Engine) :
  requestedHeading key = Some h ->
  (phase e = Idle \/ phase e = Over \/
   direction (gameState e) = opposite h \/ direction (gameState e) = h ->
   handleKeyPress key e = e) /\
  (phase e = Running \/ phase e = Paused ->
   direction (gameState e) <> opposite h ->
   direction (gameState e) <> h ->
   handleKeyPress key e = withGameState e (withDirection (gameState e) h)).
Proof.
  intros Hreq.
  destruct (requestedHeading_cases key h Hreq) as [Hspace Hcases].
  assert (Hkey :
    negb (isPlaying e) || gameOver (gameState e) = false ->
    handleKeyPress key e
    = if (direction (gameState e) =? opposite h)%string
         || (direction (gameState e) =? h)%string
      then e
      else withGameState e (withDirection (gameState e) h)).
  { intros Hguard. unfold handleKeyPress. rewrite Hguard, Hspace. cbv zeta.
    destruct Hcases as [[K ->]|[[K1 [K ->]]|[[K1 [K2 [K ->]]]|[K1 [K2 [K3 [K ->]]]]]]];
      rewrite ?K1, ?K2, ?K3, K;
      apply heading_update; discriminate. }
  split.
  - intros [Hp|[Hp|Hd]].
    + unfold handleKeyPress.
      rewrite (proj2 (guard_phase e) (or_introl Hp)). reflexivity.
    + unfold handleKeyPress.
      rewrite (proj2 (guard_phase e) (or_intror Hp)). reflexivity.
    + destruct (negb (isPlaying e) || gameOver (gameState e)) eqn:Hguard.
      * unfold handleKeyPress. rewrite Hguard. reflexivity.
      * rewrite Hkey by reflexivity.
        destruct Hd as [Hd|Hd]; rewrite Hd at 1 2;
          rewrite String.eqb_refl, ?orb_true_r; reflexivity.
  - intros Hp Hrev Hsame.
    rewrite Hkey.
    + apply String.eqb_neq in Hrev, Hsame. rewrite Hrev, Hsame. reflexivity.
    + destruct (negb (isPlaying e) || gameOver (gameState e)) eqn:Hguard;
        [|reflexivity].
      apply guard_phase in Hguard.
      destruct Hp as [Hp|Hp], Hguard as [Hg|Hg]; congruence.
Qed.

Lemma handleKeyPress_sets_heading_witness :
  handleKeyPress "ArrowLeft" foodAhead = foodAhead /\
  handleKeyPress "w" pausedGame
  = withGameState pausedGame (withDirection (gameState pausedGame) "UP").
Proof.
  split.
  - apply (proj1 (handleKeyPress_sets_heading "ArrowLeft" "LEFT" foodAhead
                    eq_refl)).
    right. right. left. reflexivity.
  - apply (proj2 (handleKeyPress_sets_heading "w" "UP" pausedGame eq_refl)).
    + right. reflexivity.
    + discriminate.
    + discriminate.
Defined.

(** A reversal is refused and a turn is taken, on a running game. *)
Example heading_keys_on_running_game :
  handleKeyPress "ArrowLeft" foodAhead = foodAhead /\
  handleKeyPress "ArrowRight" foodAhead = foodAhead /\
  handleKeyPress "ArrowUp" foodAhead
  = playing [mkPosition 10 10] (mkPosition 11 10) "UP" false /\
  handleKeyPress "s" foodAhead
  = playing [mkPosition 10 10] (mkPosition 11 10) "DOWN" false.
Proof. repeat split; reflexivity. Qed.

(** C6, as stated, fails: after the tick of the scenario the snake has two
    cells, the food cell in front of the cell it started on. *)
Lemma scenario_snake_has_two_cells :
  exists e',
    advanceTick 1 (cellSource 3 4) foodAhead = Some e' /\
    snake (gameState e') = [mkPosition 11 10; mkPosition 10 10] /\
    snake (gameState e') <> [mkPosition 11 10].
Proof.
  eexists. split; [reflexivity|]. split; [reflexivity|]. discriminate.
Qed.

(** C6, amended. From the Running state with snake [(10,10)], heading RIGHT
    and food at (11,10), a firing of the timer on a fair random source
    returns (with enough iterations of the sampling loop, always the same
    state): the snake is [(11,10); (10,10)], the score is 10, the new food
    cell is neither of the two cells of the snake, and the state is still
    Running, not Over. *)
Theorem scenario_eat_first_food (hs : Z) (random : RandomSource) :
  fairSource random ->
  let start := mkEngine (mkGameState [mkPosition 10 10] (mkPosition 11 10)
                                     "RIGHT" 0 false false) hs true in
  exists e',
    (exists fuel, forall fuel',
        (fuel <= fuel')%nat -> advanceTick fuel' random start = Some e') /\
    (forall fuel' e'', advanceTick fuel' random start = Some e'' -> e'' = e') /\
    snake (gameState e') = [mkPosition 11 10; mkPosition 10 10] /\
    score (gameState e') = 10 /\
    food (gameState e') <> mkPosition 11 10 /\
    food (gameState e') <> mkPosition 10 10 /\
    gameOver (gameState e') = false /\
    phase e' = Running.
Proof.
  intros Hfair start.
  assert (Heq : forall fuel,
    advanceTick fuel random start
    = match generateFood fuel random [mkPosition 11 10; mkPosition 10 10] with
      | None => None
      | Some newFood => Some (afterEating start newFood)
      end).
  { intros fuel. reflexivity. }
  destruct (generateFood_fair random [mkPosition 11 10; mkPosition 10 10]
              Hfair) as [fuel [c Hgen]].
  { vm_compute. lia. }
  exists (afterEating start c). split; [|split].
  - exists fuel. intros fuel' Hle. rewrite Heq.
    rewrite (generateFood_more_fuel fuel fuel' _ _ c Hle Hgen). reflexivity.
  - intros fuel' e''. rewrite Heq.
    destruct (generateFood fuel' random [mkPosition 11 10; mkPosition 10 10])
      as [c'|] eqn:Hgen'; [|discriminate].
    intros [= <-].
    rewrite (generateFood_agree _ _ _ _ _ _ Hgen Hgen'). reflexivity.
  - apply generateFood_free in Hgen.
    cbn [afterEating start gameState snake score food gameOver].
    repeat split.
    + intros Hf. apply Hgen. left. symmetry. exact Hf.
    + intros Hf. apply Hgen. right. left. symmetry. exact Hf.
Qed.

Lemma scenario_eat_first_food_witness :
  exists e',
    (exists fuel, forall fuel',
        (fuel <= fuel')%nat -> advanceTick fuel' scanSource foodAhead = Some e') /\
    (forall fuel' e'',
        advanceTick fuel' scanSource foodAhead = Some e'' -> e'' = e') /\
    snake (gameState e') = [mkPosition 11 10; mkPosition 10 10] /\
    score (gameState e') = 10 /\
    food (gameState e') <> mkPosition 11 10 /\
    food (gameState e') <> mkPosition 10 10 /\
    gameOver (gameState e') = false /\
    phase e' = Running.
Proof.
  apply (scenario_eat_first_food 0 scanSource).
  exact scanSource_fair.
Defined.

(** C7. In a Running state whose moved head leaves the grid, a firing of the
    timer sets [gameOver] and changes nothing else (snake, food, heading,
    score, pause flag, high score), the engine is then Over, and any further
    firings of the timer leave that state as it is. *)
Theorem advanceTick_wall_exit_over
    (fuel : nat) (random : RandomSource) (e : Engine) (h : Position) :
  phase e = Running ->
  movedHead (gameState e) = Some h ->
  ~ inGrid h ->
  let over := withGameState e (withGameOver (gameState e) true) in
  advanceTick fuel random e = Some over /\
  phase over = Over /\
  forall runs, advanceTicks runs over = Some over.
Proof.
  intros Hrun Hh Hout over. split; [|split].
  - rewrite advanceTick_Running by exact Hrun.
    apply (moveSnake_collision fuel random e h).
    + apply Running_not_halted. exact Hrun.
    + exact Hh.
    + apply hitsWall_true in Hout. rewrite Hout. reflexivity.
  - apply Running_flags in Hrun. destruct Hrun as [Hplay _].
    unfold phase, over. simpl. rewrite Hplay. reflexivity.
  - assert (Hidle : forall f r, advanceTick f r over = Some over).
    { intros f r. unfold advanceTick, loopActive, over. simpl.
      rewrite andb_false_r. reflexivity. }
    induction runs as [|[f r] runs IH]; simpl; [reflexivity|].
    rewrite Hidle. exact IH.
Qed.

Lemma advanceTick_wall_exit_over_witness :
  let over := withGameState atLeftWall
                (withGameOver (gameState atLeftWall) true) in
  advanceTick 0 scanSource atLeftWall = Some over /\
  phase over = Over /\
  forall runs, advanceTicks runs over = Some over.
Proof.
  apply (advanceTick_wall_exit_over 0 scanSource atLeftWall
           (mkPosition (-1) 10)).
  - reflexivity.
  - reflexivity.
  - unfold inGrid, GRID_SIZE. simpl. lia.
Defined.

(** The two wall scenarios of the specification, evaluated. *)
Example wall_scenarios :
  advanceTick 0 scanSource atLeftWall
  = Some (mkEngine (mkGameState [mkPosition 0 10] (mkPosition 3 4) "LEFT" 0
                                true false) 0 true) /\
  advanceTick 0 scanSource atRightWall
  = Some (mkEngine (mkGameState [mkPosition 19 7; mkPosition 18 7]
                                (mkPosition 3 4) "RIGHT" 0 true false)
                   0 true).
Proof. split; reflexivity. Qed.

(** C8. Whatever the current state, [resetGame] leaves the engine Idle with
    a game state that agrees with the one [startGame] produces in every field
    but the food: the snake is the single default cell, the heading is RIGHT,
    the score is 0, and the game is neither over nor paused. *)
Theorem resetGame_matches_startGame
    (e e0 started : Engine) (fuel : nat) (random : RandomSource) :
  startGame fuel random e0 = Some started ->
  phase (resetGame e) = Idle /\
  snake (gameState (resetGame e)) = snake (gameState started) /\
  direction (gameState (resetGame e)) = direction (gameState started) /\
  score (gameState (resetGame e)) = score (gameState started) /\
  gameOver (gameState (resetGame e)) = gameOver (gameState started) /\
  isPaused (gameState (resetGame e)) = isPaused (gameState started) /\
  gameState (resetGame e) = withFood (gameState started) INITIAL_FOOD /\
  gameState (resetGame e)
  = mkGameState [mkPosition 10 10] (mkPosition 15 15) "RIGHT" 0 false false /\
  phase started = Running.
Proof.
  unfold startGame.
  destruct (generateFood fuel random INITIAL_SNAKE) as [newFood|];
    [|discriminate].
  intros [= <-]. repeat split; reflexivity.
Qed.

Lemma resetGame_matches_startGame_witness :
  phase (resetGame curledSnake) = Idle /\
  snake (gameState (resetGame curledSnake)) = snake (gameState foodAhead) /\
  direction (gameState (resetGame curledSnake))
  = direction (gameState foodAhead) /\
  score (gameState (resetGame curledSnake)) = score (gameState foodAhead) /\
  gameOver (gameState (resetGame curledSnake))
  = gameOver (gameState foodAhead) /\
  isPaused (gameState (resetGame curledSnake))
  = isPaused (gameState foodAhead) /\
  gameState (resetGame curledSnake)
  = withFood (gameState foodAhead) INITIAL_FOOD /\
  gameState (resetGame curledSnake)
  = mkGameState [mkPosition 10 10] (mkPosition 15 15) "RIGHT" 0 false false /\
  phase foodAhead = Running.
Proof.
  apply (resetGame_matches_startGame curledSnake (initialEngine 0) foodAhead
           1 (cellSource 11 10)).
  reflexivity.
Defined.

(** [startGame] returns on every fair source. *)

(** C9, as stated, fails: on the one-cell snake of the start, and with
    [Math.random()] returning 1/2 at every call (a value of [0, 1)), every
    iteration of the sampling loop builds the cell (10,10), which the snake
    occupies, so the loop never ends. *)
Lemma generateFood_never_ends_on_one_cell :
  validSource (cellSource 10 10) /\
  (cellsOccupied INITIAL_SNAKE < 400)%nat /\
  (forall k, draw (cellSource 10 10) k = mkPosition 10 10) /\
  (forall fuel, generateFood fuel (cellSource 10 10) INITIAL_SNAKE = None).
Proof.
  split; [apply cellSource_valid; lia|].
  split; [vm_compute; lia|].
  split; [intros k; apply cellSource_draw|].
  intros fuel. apply generateFood_runs_on.
  intros k. rewrite cellSource_draw. left. reflexivity.
Qed.

(** C9, amended. For every snake that occupies fewer than 400 cells and
    every fair random source (one whose draws reach every cell of the grid),
    the rejection-sampling loop of [generateFood] ends: from some number of
    iterations on it returns one and the same cell, and that cell is not
    occupied by the snake. *)
Theorem generateFood_terminates_on_free_cell
    (random : RandomSource) (snake : list Position) :
  fairSource random ->
  (cellsOccupied snake < 400)%nat ->
  exists c,
    ~ In c snake /\
    exists fuel, forall fuel',
        (fuel <= fuel')%nat -> generateFood fuel' random snake = Some c.
Proof.
  intros Hfair Hlt.
  destruct (generateFood_fair random snake Hfair Hlt) as [fuel [c Hgen]].
  exists c. split.
  - eapply generateFood_free. exact Hgen.
  - exists fuel. intros fuel' Hle.
    eapply generateFood_more_fuel; eassumption.
Qed.

Lemma generateFood_terminates_witness :
  exists c,
    ~ In c [mkPosition 0 0; mkPosition 0 1] /\
    exists fuel, forall fuel',
        (fuel <= fuel')%nat ->
        generateFood fuel' scanSource [mkPosition 0 0; mkPosition 0 1]
        = Some c.
Proof.
  apply (generateFood_terminates_on_free_cell scanSource
           [mkPosition 0 0; mkPosition 0 1]).
  - exact scanSource_fair.
  - vm_compute. lia.
Defined.

(** C10. The self-collision test looks at the whole snake as it is before
    the move, its last cell included: in a Running state whose moved head is
    any cell of that snake, a firing of the timer sets [gameOver], changes
    nothing else, and the engine is Over. *)
Theorem advanceTick_self_collision_over
    (fuel : nat) (random : RandomSource) (e : Engine) (h : Position) :
  phase e = Running ->
  movedHead (gameState e) = Some h ->
  In h (snake (gameState e)) ->
  advanceTick fuel random e
  = Some (withGameState e (withGameOver (gameState e) true)) /\
  phase (withGameState e (withGameOver (gameState e) true)) = Over.
Proof.
  intros Hrun Hh Hin. split.
  - rewrite advanceTick_Running by exact Hrun.
    apply (moveSnake_collision fuel random e h).
    + apply Running_not_halted. exact Hrun.
    + exact Hh.
    + apply occupied_true in Hin. rewrite Hin. apply orb_true_r.
  - apply Running_flags in Hrun. destruct Hrun as [Hplay _].
    unfold phase. simpl. rewrite Hplay. reflexivity.
Qed.

Lemma advanceTick_self_collision_over_witness :
  reachable curledSnake /\
  movedHead (gameState curledSnake)
  = Some (last (snake (gameState curledSnake)) (mkPosition 0 0)) /\
  advanceTick 0 scanSource curledSnake
  = Some (withGameState curledSnake
            (withGameOver (gameState curledSnake) true)) /\
  phase (withGameState curledSnake
           (withGameOver (gameState curledSnake) true)) = Over.
Proof.
  split; [exact curledSnake_reachable|].
  split; [reflexivity|].
  apply (advanceTick_self_collision_over 0 scanSource curledSnake
           (mkPosition 10 10)).
  - reflexivity.
  - reflexivity.
  - simpl. tauto.
Defined.

(** * Further properties of the engine *)

(** In every reachable state the food lies in the grid, on a cell that the
    snake does not occupy, and the snake has at least one cell. *)
Theorem reachable_food_off_snake (e : Engine) :
  reachable e ->
  snake (gameState e) <> [] /\
  inGrid (food (gameState e)) /\
  ~ In (food (gameState e)) (snake (gameState e)).
Proof.
  intros Hreach. apply reachable_wellFormed in Hreach.
  destruct Hreach as [Hne _ _ Hfg Hff]. auto.
Qed.

Lemma reachable_food_off_snake_witness :
  snake (gameState curledSnake) <> [] /\
  inGrid (food (gameState curledSnake)) /\
  ~ In (food (gameState curledSnake)) (snake (gameState curledSnake)).
Proof.
  apply (reachable_food_off_snake curledSnake).
  exact curledSnake_reachable.
Defined.

(** [togglePause] does nothing while the engine is Idle or Over; otherwise it
    flips the pause flag and nothing else, taking Running to Paused and
    Paused to Running. *)
Theorem togglePause_flips_pause (e : Engine) :
  match phase e with
  | Idle | Over => togglePause e = e
  | Running =>
      togglePause e = withGameState e (withIsPaused (gameState e) true) /\
      phase (togglePause e) = Paused
  | Paused =>
      togglePause e = withGameState e (withIsPaused (gameState e) false) /\
      phase (togglePause e) = Running
  end.
Proof.
  unfold phase, togglePause.
  destruct e as [[sn fd dir sc over paused] hs playing].
  destruct playing, over, paused; simpl; auto.
Qed.

(** A snake that covers the whole grid leaves the sampling loop nothing to
    find: it never returns, whatever [Math.random()] yields. *)
Theorem generateFood_diverges_on_full_grid
    (fuel : nat) (random : RandomSource) (snake : list Position) :
  validSource random ->
  (forall c, inGrid c -> In c snake) ->
  generateFood fuel random snake = None.
Proof.
  intros Hvalid Hfull. apply generateFood_runs_on.
  intros k. apply Hfull. apply draw_inGrid. exact Hvalid.
Qed.

Lemma generateFood_diverges_on_full_grid_witness :
  generateFood 1000 scanSource gridCells = None.
Proof.
  apply (generateFood_diverges_on_full_grid 1000 scanSource gridCells).
  - exact scanSource_valid.
  - intros c Hc. apply gridCells_spec. exact Hc.
Defined.

(** Whatever it returns, [generateFood] returns a cell of the grid that is
    not on the snake. *)
Theorem generateFood_result_free_in_grid
    (fuel : nat) (random : RandomSource) (snake : list Position)
    (c : Position) :
  validSource random ->
  generateFood fuel random snake = Some c ->
  inGrid c /\ ~ In c snake.
Proof.
  intros Hvalid Hgen. split.
  - eapply generateFood_inGrid; eassumption.
  - eapply generateFood_free; eassumption.
Qed.

Lemma generateFood_result_free_in_grid_witness :
  inGrid (mkPosition 0 2) /\
  ~ In (mkPosition 0 2) [mkPosition 0 0; mkPosition 0 1].
Proof.
  apply (generateFood_result_free_in_grid 3 scanSource
           [mkPosition 0 0; mkPosition 0 1] (mkPosition 0 2)).
  - exact scanSource_valid.
  - reflexivity.
Defined.

(** Only a direct reversal is refused: two turns between two firings of the
    timer reverse the heading, and the next firing runs the head of a snake
    of two cells into its own body. *)
Example two_turns_reverse_heading :
  let turned := handleKeyPress "ArrowLeft" (handleKeyPress "ArrowUp" twoCells) in
  direction (gameState twoCells) = "RIGHT" /\
  handleKeyPress "ArrowLeft" twoCells = twoCells /\
  direction (gameState turned) = "LEFT" /\
  advanceTick 0 scanSource turned
  = Some (withGameState turned (withGameOver (gameState turned) true)).
Proof. repeat split; reflexivity. Qed.

(** The updater of [moveSnake] does not look at [isPlaying]: applied to the
    state the component mounts with, it moves the snake.  Only the game loop
    keeps an Idle engine still. *)
Example moveSnake_ignores_isPlaying :
  phase (initialEngine 0) = Idle /\
  moveSnake 0 scanSource (initialEngine 0)
  = Some (withGameState (initialEngine 0)
            (withSnake initialGameState [mkPosition 11 10])) /\
  advanceTick 0 scanSource (initialEngine 0) = Some (initialEngine 0).
Proof. repeat split; reflexivity. Qed.

Lemma togglePause_score (e : Engine) :
  score (gameState (togglePause e)) = score (gameState e).
Proof. unfold togglePause. split_ifs; reflexivity. Qed.

Lemma handleKeyPress_score (key : string) (e : Engine) :
  score (gameState (handleKeyPress key e)) = score (gameState e).
Proof.
  unfold handleKeyPress.
  destruct (negb (isPlaying e) || gameOver (gameState e)); [reflexivity|].
  destruct (keyIs key [" "]); [apply togglePause_score|].
  cbv zeta. split_ifs; reflexivity.
Qed.

Lemma moveSnake_scoreCountsGrowth (fuel : nat) (random : RandomSource)
    (e e' : Engine) :
  scoreCountsGrowth (gameState e) ->
  moveSnake fuel random e = Some e' -> scoreCountsGrowth (gameState e').
Proof.
  unfold scoreCountsGrowth. intros Hinv.
  destruct (gameOver (gameState e) || isPaused (gameState e)) eqn:Hrun.
  { rewrite moveSnake_halted by exact Hrun. intros [= <-]. exact Hinv. }
  destruct (movedHead (gameState e)) as [h|] eqn:Hh.
  2:{ unfold movedHead in Hh. destruct (snake (gameState e)) eqn:Hs;
        [|discriminate].
      rewrite moveSnake_empty by exact Hs. intros [= <-].
      rewrite Hs. exact Hinv. }
  destruct (hitsWall h || occupied (snake (gameState e)) h) eqn:Hhit.
  { rewrite (moveSnake_collision fuel random e h) by assumption.
    intros [= <-]. exact Hinv. }
  apply orb_false_iff in Hhit. destruct Hhit as [Hwall Hocc].
  destruct (Position_eq_dec h (food (gameState e))) as [Heq|Hneq].
  - rewrite (moveSnake_eat fuel random e h) by assumption.
    destruct (generateFood fuel random (h :: snake (gameState e)));
      [|discriminate].
    intros [= <-]. cbn [gameState snake score List.length]. lia.
  - rewrite (moveSnake_advance fuel random e h) by assumption.
    intros [= <-]. cbn [gameState withGameState withSnake snake score].
    destruct (movedHead_Some _ _ Hh) as [snake0 [rest [Hs _]]].
    rewrite Hs in *. cbn [List.length]. rewrite length_removelast_cons.
    exact Hinv.
Qed.

Lemma reachable_scoreCountsGrowth (e : Engine) :
  reachable e -> scoreCountsGrowth (gameState e).
Proof.
  induction 1 as [hs | e c fuel random e' _ IH _ Hstep].
  - reflexivity.
  - destruct c as [| |key| |]; simpl in Hstep.
    + unfold startGame in Hstep.
      destruct (generateFood fuel random INITIAL_SNAKE); [|discriminate].
      injection Hstep as <-. reflexivity.
    + unfold advanceTick in Hstep. destruct (loopActive e).
      * eapply moveSnake_scoreCountsGrowth; eassumption.
      * injection Hstep as <-. exact IH.
    + injection Hstep as <-. unfold scoreCountsGrowth.
      rewrite handleKeyPress_score, (proj1 (handleKeyPress_cells key e)).
      exact IH.
    + injection Hstep as <-. unfold scoreCountsGrowth.
      rewrite togglePause_score, (proj1 (togglePause_cells e)).
      exact IH.
    + injection Hstep as <-. reflexivity.
Qed.

(** In every reachable state the score is 10 times the number of cells the
    snake has grown by since the start. *)
Theorem reachable_score_is_ten_per_cell (e : Engine) :
  reachable e ->
  score (gameState e)
  = 10 * (Z.of_nat (List.length (snake (gameState e))) - 1).
Proof. apply reachable_scoreCountsGrowth. Qed.

Lemma reachable_score_is_ten_per_cell_witness :
  score (gameState lastFood)
  = 10 * (Z.of_nat (List.length (snake (gameState lastFood))) - 1).
Proof.
  apply (reachable_score_is_ten_per_cell lastFood).
  exact lastFood_reachable.
Defined.

(** Whatever [Math.random()] yields: when a firing of the timer returns in a
    reachable Running state whose moved head is the food cell, the food cell
    has been put in front of the snake, the score is higher by 10, the high
    score is the larger of its old value and the new score, and the new food
    is in the grid and off the grown snake. *)
Theorem advanceTick_eat_result
    (fuel : nat) (random : RandomSource) (e e' : Engine) :
  reachable e ->
  phase e = Running ->
  movedHead (gameState e) = Some (food (gameState e)) ->
  validSource random ->
  advanceTick fuel random e = Some e' ->
  snake (gameState e') = food (gameState e) :: snake (gameState e) /\
  score (gameState e') = score (gameState e) + 10 /\
  highScore e' = Z.max (highScore e) (score (gameState e) + 10) /\
  inGrid (food (gameState e')) /\
  ~ In (food (gameState e')) (snake (gameState e')) /\
  direction (gameState e') = direction (gameState e) /\
  phase e' = Running.
Proof.
  intros Hreach Hrun Hh Hvalid.
  rewrite (advanceTick_on_food e Hreach Hrun Hh).
  destruct (generateFood fuel random
              (food (gameState e) :: snake (gameState e)))
    as [newFood|] eqn:Hgen; [|discriminate].
  intros [= <-].
  cbn [afterEating gameState snake score food highScore direction].
  split; [reflexivity|]. split; [reflexivity|].
  split.
  { destruct (Z.gtb_spec (score (gameState e) + 10) (highScore e)); lia. }
  split; [apply (generateFood_inGrid _ _ _ _ Hvalid Hgen)|].
  split; [eapply generateFood_free; exact Hgen|].
  split; [reflexivity|].
  apply Running_flags in Hrun. destruct Hrun as [Hp [Ho Hpa]].
  unfold phase, afterEating. simpl. rewrite Hp, Ho, Hpa. reflexivity.
Qed.

Lemma advanceTick_eat_result_witness :
  let e' := mkEngine (mkGameState [mkPosition 11 10; mkPosition 10 10]
                                  (mkPosition 3 4) "RIGHT" 10 false false)
                     10 true in
  snake (gameState e')
  = food (gameState foodAhead) :: snake (gameState foodAhead) /\
  score (gameState e') = score (gameState foodAhead) + 10 /\
  highScore e' = Z.max (highScore foodAhead) (score (gameState foodAhead) + 10) /\
  inGrid (food (gameState e')) /\
  ~ In (food (gameState e')) (snake (gameState e')) /\
  direction (gameState e') = direction (gameState foodAhead) /\
  phase e' = Running.
Proof.
  apply (advanceTick_eat_result 1 (cellSource 3 4) foodAhead).
  - exact foodAhead_reachable.
  - reflexivity.
  - reflexivity.
  - apply cellSource_valid; lia.
  - reflexivity.
Defined.

(** * The state machine *)

(** ** What a run of [moveSnake] can return *)

Lemma moveSnake_inv (fuel : nat) (random : RandomSource) (e e' : Engine) :
  moveSnake fuel random e = Some e' ->
  e' = e \/
  (gameOver (gameState e) || isPaused (gameState e) = false /\
   exists h,
     movedHead (gameState e) = Some h /\
     ((hitsWall h || occupied (snake (gameState e)) h = true /\
       e' = withGameState e (withGameOver (gameState e) true)) \/
      (hitsWall h = false /\ occupied (snake (gameState e)) h = false /\
       h = food (gameState e) /\
       exists newFood,
         generateFood fuel random (h :: snake (gameState e)) = Some newFood /\
         e' = afterEating e newFood) \/
      (hitsWall h = false /\ occupied (snake (gameState e)) h = false /\
       h <> food (gameState e) /\
       e' = withGameState e
              (withSnake (gameState e)
                 (h :: removelast (snake (gameState e))))))).
Proof.
  destruct (gameOver (gameState e) || isPaused (gameState e)) eqn:Hrun.
  { rewrite moveSnake_halted by exact Hrun. intros [= <-]. left. reflexivity. }
  destruct (movedHead (gameState e)) as [h|] eqn:Hh.
  2:{ unfold movedHead in Hh. destruct (snake (gameState e)) eqn:Hs;
        [|discriminate].
      rewrite moveSnake_empty by exact Hs. intros [= <-]. left. reflexivity. }
  intros Hmove. right. split; [reflexivity|]. exists h. split; [reflexivity|].
  destruct (hitsWall h || occupied (snake (gameState e)) h) eqn:Hhit.
  { rewrite (moveSnake_collision fuel random e h) in Hmove by assumption.
    injection Hmove as <-. left. split; reflexivity. }
  apply orb_false_iff in Hhit. destruct Hhit as [Hwall Hocc]. right.
  destruct (Position_eq_dec h (food (gameState e))) as [Heq|Hneq].
  - rewrite (moveSnake_eat fuel random e h) in Hmove by assumption.
    destruct (generateFood fuel random (h :: snake (gameState e)))
      as [newFood|] eqn:Hgen; [|discriminate].
    injection Hmove as <-. left. repeat split; try assumption.
    exists newFood. split; [reflexivity|].
    unfold afterEating. rewrite <- Heq. reflexivity.
  - rewrite (moveSnake_advance fuel random e h) in Hmove by assumption.
    injection Hmove as <-. right. repeat split; assumption.
Qed.

(** What a tick leaves alone: the playing and pause flags and the heading;
    a game that is over stays over. *)
Lemma moveSnake_frame (fuel : nat) (random : RandomSource) (e e' : Engine) :
  moveSnake fuel random e = Some e' ->
  isPlaying e' = isPlaying e /\
  isPaused (gameState e') = isPaused (gameState e) /\
  direction (gameState e') = direction (gameState e) /\
  (gameOver (gameState e') = gameOver (gameState e) \/
   gameOver (gameState e) || isPaused (gameState e) = false /\
   gameOver (gameState e') = true).
Proof.
  intros H. apply moveSnake_inv in H.
  destruct H as [->|[Hrun [h [_ [[_ ->]|[[_ [_ [_ [nf [_ ->]]]]]|[_ [_ [_ ->]]]]]]]]];
    cbn [afterEating withGameState withGameOver withSnake gameState
         isPlaying isPaused direction gameOver];
    repeat split; auto.
Qed.

(** ** Flags, heading and body in reachable states *)

Lemma togglePause_flags (e : Engine) :
  isPlaying (togglePause e) = isPlaying e /\
  gameOver (gameState (togglePause e)) = gameOver (gameState e) /\
  direction (gameState (togglePause e)) = direction (gameState e) /\
  highScore (togglePause e) = highScore e /\
  (isPaused (gameState (togglePause e)) = isPaused (gameState e) \/
   isPlaying e = true /\ gameOver (gameState e) = false).
Proof.
  unfold togglePause.
  destruct (isPlaying e) eqn:Hp, (gameOver (gameState e)) eqn:Ho; simpl;
    rewrite ?Hp, ?Ho; repeat split; auto.
Qed.

Lemma handleKeyPress_flags (key : string) (e : Engine) :
  isPlaying (handleKeyPress key e) = isPlaying e /\
  gameOver (gameState (handleKeyPress key e)) = gameOver (gameState e) /\
  highScore (handleKeyPress key e) = highScore e /\
  (isPaused (gameState (handleKeyPress key e)) = isPaused (gameState e) \/
   isPlaying e = true /\ gameOver (gameState e) = false).
Proof.
  unfold handleKeyPress.
  destruct (negb (isPlaying e) || gameOver (gameState e)) eqn:Hguard;
    [auto|].
  destruct (keyIs key [" "]).
  - pose proof (togglePause_flags e). tauto.
  - cbv zeta. split_ifs; simpl; auto.
Qed.

Lemma handleKeyPress_validHeading (key : string) (e : Engine) :
  validHeading (direction (gameState e)) ->
  validHeading (direction (gameState (handleKeyPress key e))).
Proof.
  intros Hvalid. unfold handleKeyPress.
  destruct (negb (isPlaying e) || gameOver (gameState e)); [exact Hvalid|].
  destruct (keyIs key [" "]).
  - rewrite (proj1 (proj2 (proj2 (togglePause_flags e)))). exact Hvalid.
  - cbv zeta. unfold validHeading in *.
    split_ifs; simpl; auto.
Qed.

Lemma moveHead_adjacent (d : string) (a : Position) :
  validHeading d -> adjacent (moveHead d a) a.
Proof.
  unfold adjacent. intros [ -> | [ -> | [ -> | -> ] ] ]; simpl; lia.
Qed.

Lemma contiguous_removelast (l : list Position) :
  contiguous l -> contiguous (removelast l).
Proof.
  induction l as [|a l IH]; [trivial|].
  destruct l as [|b l]; [trivial|].
  intros [Hab Hrest]. rewrite removelast_cons.
  specialize (IH Hrest).
  destruct l as [|c l]; [exact I|].
  rewrite removelast_cons in *. cbn [contiguous]. split; assumption.
Qed.

Lemma contiguous_step (h a : Position) (rest : list Position) :
  adjacent h a -> contiguous (a :: rest) ->
  contiguous (h :: removelast (a :: rest)).
Proof.
  intros Hadj Hbody.
  destruct rest as [|b rest]; [exact I|].
  rewrite removelast_cons. split; [exact Hadj|].
  rewrite <- removelast_cons. apply contiguous_removelast. exact Hbody.
Qed.

(** What holds in a game besides [wellFormed]. *)
Record gameInvariant (e : Engine) : Prop := mkGameInvariant {
  inv_flags : flagsConsistent e;
  inv_heading : validHeading (direction (gameState e));
  inv_body : contiguous (snake (gameState e))
}.

Lemma gameInvariant_initial (hs : Z) (b : bool) (c : Position) :
  gameInvariant
    (mkEngine (mkGameState INITIAL_SNAKE c "RIGHT" 0 false false) hs b).
Proof.
  constructor.
  - repeat split; simpl; discriminate.
  - right. right. right. reflexivity.
  - exact I.
Qed.

Lemma moveSnake_heading_body (fuel : nat) (random : RandomSource)
    (e e' : Engine) :
  validHeading (direction (gameState e)) ->
  contiguous (snake (gameState e)) ->
  moveSnake fuel random e = Some e' ->
  validHeading (direction (gameState e')) /\
  contiguous (snake (gameState e')).
Proof.
  intros Hheading Hbody Hmove.
  pose proof (moveSnake_frame _ _ _ _ Hmove) as [_ [_ [Hdir _]]].
  split; [rewrite Hdir; exact Hheading|].
  apply moveSnake_inv in Hmove.
  destruct Hmove as [->|[_ [h [Hh [[_ ->]|[[_ [_ [Hfood [nf [_ ->]]]]]|[_ [_ [_ ->]]]]]]]]];
    cbn [afterEating withGameState withGameOver withSnake gameState snake];
    try assumption;
    destruct (movedHead_Some _ _ Hh) as [a [rest [Hs Hm]]].
  - rewrite <- Hfood, Hs. split; [|rewrite <- Hs; exact Hbody].
    rewrite Hm. apply moveHead_adjacent. exact Hheading.
  - rewrite Hs. apply contiguous_step; [|rewrite <- Hs; exact Hbody].
    rewrite Hm. apply moveHead_adjacent. exact Hheading.
Qed.

Lemma advanceTick_flagsConsistent (fuel : nat) (random : RandomSource)
    (e e' : Engine) :
  flagsConsistent e ->
  advanceTick fuel random e = Some e' -> flagsConsistent e'.
Proof.
  intros Hflags. unfold advanceTick.
  destruct (loopActive e) eqn:Hloop; [|intros [= <-]; exact Hflags].
  apply loopActive_Running, Running_flags in Hloop.
  destruct Hloop as [Hp [Ho Hpa]]. intros Hmove.
  pose proof (moveSnake_frame _ _ _ _ Hmove) as [Hplay [Hpause _]].
  unfold flagsConsistent. rewrite Hplay, Hpause, Hp, Hpa. auto.
Qed.

Lemma step_gameInvariant (c : Command) (fuel : nat) (random : RandomSource)
    (e e' : Engine) :
  gameInvariant e ->
  step c fuel random e = Some e' -> gameInvariant e'.
Proof.
  intros [Hflags Hheading Hbody]. destruct c as [| |key| |]; simpl.
  - unfold startGame.
    destruct (generateFood fuel random INITIAL_SNAKE); [|discriminate].
    intros [= <-]. apply gameInvariant_initial.
  - intros Htick. constructor.
    + eapply advanceTick_flagsConsistent; eassumption.
    + unfold advanceTick in Htick. destruct (loopActive e).
      * eapply moveSnake_heading_body; eassumption.
      * injection Htick as <-. exact Hheading.
    + unfold advanceTick in Htick. destruct (loopActive e).
      * eapply moveSnake_heading_body; eassumption.
      * injection Htick as <-. exact Hbody.
  - intros [= <-]. constructor.
    + destruct Hflags as [Hf1 [Hf2 Hf3]].
      pose proof (handleKeyPress_flags key e) as [Hp [Ho [_ Hpa]]].
      unfold flagsConsistent. rewrite Hp, Ho.
      destruct Hpa as [->|[Hplay Hover]]; [auto|].
      rewrite Hplay, Hover. repeat split; auto; discriminate.
    + apply handleKeyPress_validHeading. exact Hheading.
    + rewrite (proj1 (handleKeyPress_cells key e)). exact Hbody.
  - intros [= <-]. constructor.
    + destruct Hflags as [Hf1 [Hf2 Hf3]].
      pose proof (togglePause_flags e) as [Hp [Ho [_ [_ Hpa]]]].
      unfold flagsConsistent. rewrite Hp, Ho.
      destruct Hpa as [->|[Hplay Hover]]; [auto|].
      rewrite Hplay, Hover. repeat split; auto; discriminate.
    + rewrite (proj1 (proj2 (proj2 (togglePause_flags e)))). exact Hheading.
    + rewrite (proj1 (togglePause_cells e)). exact Hbody.
  - intros [= <-]. apply gameInvariant_initial.
Qed.

Lemma reachable_gameInvariant (e : Engine) :
  reachable e -> gameInvariant e.
Proof.
  induction 1 as [hs | e c fuel random e' _ IH _ Hstep].
  - apply gameInvariant_initial.
  - eapply step_gameInvariant; eassumption.
Qed.

Lemma reachable_length_le (e : Engine) :
  reachable e -> (List.length (snake (gameState e)) <= 400)%nat.
Proof.
  intros Hreach. apply reachable_wellFormed in Hreach.
  destruct Hreach as [_ Hgrid Hnd _ _].
  rewrite <- gridCells_length. apply NoDup_incl_length; [exact Hnd|].
  intros c Hin. apply gridCells_spec.
  exact (proj1 (Forall_forall _ _) Hgrid c Hin).
Qed.

Lemma pausedGame_reachable : reachable pausedGame.
Proof.
  apply (reach_step (playing INITIAL_SNAKE INITIAL_FOOD "RIGHT" false)
                    TogglePause 0 scanSource).
  - apply (reach_step (initialEngine 0) Start 1 (cellSource 15 15)).
    + apply reach_mount.
    + apply cellSource_valid; lia.
    + reflexivity.
  - exact scanSource_valid.
  - reflexivity.
Qed.

(** In every reachable state the flags fit together: the game is over or
    paused only while it is being played, and never both. *)
Theorem reachable_flags_consistent (e : Engine) :
  reachable e ->
  (gameOver (gameState e) = true -> isPlaying e = true) /\
  (isPaused (gameState e) = true -> isPlaying e = true) /\
  (gameOver (gameState e) = true -> isPaused (gameState e) = false).
Proof. intros H. apply reachable_gameInvariant in H. apply H. Qed.

Lemma reachable_flags_consistent_witness :
  (gameOver (gameState pausedGame) = true -> isPlaying pausedGame = true) /\
  (isPaused (gameState pausedGame) = true -> isPlaying pausedGame = true) /\
  (gameOver (gameState pausedGame) = true ->
   isPaused (gameState pausedGame) = false).
Proof.
  apply (reachable_flags_consistent pausedGame).
  exact pausedGame_reachable.
Defined.

(** In every reachable state the heading is one of the four the code knows,
    every cell of the snake shares a side with the next one, and the snake
    has at most 400 cells. *)
Theorem reachable_snake_connected (e : Engine) :
  reachable e ->
  validHeading (direction (gameState e)) /\
  contiguous (snake (gameState e)) /\
  (List.length (snake (gameState e)) <= 400)%nat.
Proof.
  intros H. split; [|split].
  - apply reachable_gameInvariant in H. apply H.
  - apply reachable_gameInvariant in H. apply H.
  - apply reachable_length_le. exact H.
Qed.

Lemma reachable_snake_connected_witness :
  validHeading (direction (gameState curledSnake)) /\
  contiguous (snake (gameState curledSnake)) /\
  (List.length (snake (gameState curledSnake)) <= 400)%nat.
Proof.
  apply (reachable_snake_connected curledSnake).
  exact curledSnake_reachable.
Defined.

(** ** Phases *)

Lemma phase_cases (e : Engine) :
  (phase e = Idle /\ isPlaying e = false) \/
  (phase e = Over /\ isPlaying e = true /\ gameOver (gameState e) = true) \/
  (phase e = Paused /\ isPlaying e = true /\
   gameOver (gameState e) = false /\ isPaused (gameState e) = true) \/
  (phase e = Running /\ isPlaying e = true /\
   gameOver (gameState e) = false /\ isPaused (gameState e) = false).
Proof.
  unfold phase.
  destruct (isPlaying e), (gameOver (gameState e)), (isPaused (gameState e));
    simpl; tauto.
Qed.

Lemma togglePause_phase (e : Engine) :
  (phase e = Running /\ phase (togglePause e) = Paused) \/
  (phase e = Paused /\ phase (togglePause e) = Running) \/
  ((phase e = Idle \/ phase e = Over) /\ togglePause e = e).
Proof.
  unfold phase, togglePause.
  destruct e as [[sn fd dir sc over paused] hs playing].
  destruct playing, over, paused; simpl; tauto.
Qed.

Lemma handleKeyPress_heading_key (key : string) (e : Engine) :
  keyIs key [" "] = false ->
  phase (handleKeyPress key e) = phase e.
Proof.
  intros Hspace. unfold handleKeyPress.
  destruct (negb (isPlaying e) || gameOver (gameState e)); [reflexivity|].
  rewrite Hspace. cbv zeta. split_ifs; reflexivity.
Qed.

Lemma handleKeyPress_space (key : string) (e : Engine) :
  keyIs key [" "] = true -> handleKeyPress key e = togglePause e.
Proof.
  intros Hspace. unfold handleKeyPress. rewrite Hspace.
  destruct (negb (isPlaying e) || gameOver (gameState e)) eqn:Hguard;
    [|reflexivity].
  unfold togglePause. rewrite Hguard. reflexivity.
Qed.

(** How each command moves the engine between its four states: Start leads
    to Running and Reset to Idle from anywhere; a tick keeps the state or
    takes Running to Over; the pause button and the space key swap Running
    and Paused and do nothing in Idle and Over; any other key keeps the
    state. *)
Theorem step_phase (c : Command) (fuel : nat) (random : RandomSource)
    (e e' : Engine) :
  step c fuel random e = Some e' ->
  match c with
  | Start => phase e' = Running
  | Reset => phase e' = Idle
  | Tick => phase e' = phase e \/ (phase e = Running /\ phase e' = Over)
  | TogglePause =>
      (phase e = Running /\ phase e' = Paused) \/
      (phase e = Paused /\ phase e' = Running) \/
      ((phase e = Idle \/ phase e = Over) /\ e' = e)
  | KeyDown key =>
      if keyIs key [" "]
      then (phase e = Running /\ phase e' = Paused) \/
           (phase e = Paused /\ phase e' = Running) \/
           ((phase e = Idle \/ phase e = Over) /\ e' = e)
      else phase e' = phase e
  end.
Proof.
  destruct c as [| |key| |]; cbn [step].
  - unfold startGame.
    destruct (generateFood fuel random INITIAL_SNAKE); [|discriminate].
    intros [= <-]. reflexivity.
  - unfold advanceTick. destruct (loopActive e) eqn:Hloop;
      [|intros [= <-]; left; reflexivity].
    apply loopActive_Running in Hloop. intros Hmove.
    pose proof (moveSnake_frame _ _ _ _ Hmove) as [Hp [Hpa [_ Hover]]].
    pose proof (Running_flags _ Hloop) as [Hplay [Ho Hpaused]].
    destruct Hover as [Hsame|[_ Hend]].
    + left. unfold phase. rewrite Hp, Hpa, Hsame. reflexivity.
    + right. split; [exact Hloop|].
      unfold phase. rewrite Hp, Hend, Hplay. reflexivity.
  - intros [= <-]. destruct (keyIs key [" "]) eqn:Hspace.
    + rewrite (handleKeyPress_space key e Hspace). apply togglePause_phase.
    + apply handleKeyPress_heading_key. exact Hspace.
  - intros [= <-]. apply togglePause_phase.
  - intros [= <-]. reflexivity.
Qed.

Lemma step_phase_witness :
  phase (withGameState atLeftWall (withGameOver (gameState atLeftWall) true))
  = phase atLeftWall \/
  (phase atLeftWall = Running /\
   phase (withGameState atLeftWall (withGameOver (gameState atLeftWall) true))
   = Over).
Proof.
  apply (step_phase Tick 0 scanSource atLeftWall).
  reflexivity.
Defined.

(** While the engine is Idle or Over, a tick, a key press and the pause
    button all leave the whole state as it is: only Start and Reset get it
    out of these two states. *)
Theorem idle_and_over_ignore_commands
    (c : Command) (fuel : nat) (random : RandomSource) (e : Engine) :
  phase e = Idle \/ phase e = Over ->
  c <> Start -> c <> Reset ->
  step c fuel random e = Some e.
Proof.
  intros Hphase Hstart Hreset.
  pose proof (proj2 (guard_phase e) Hphase) as Hguard.
  destruct c as [| |key| |]; simpl; try congruence.
  - unfold advanceTick. destruct (loopActive e) eqn:Hloop; [|reflexivity].
    apply loopActive_Running in Hloop. destruct Hphase; congruence.
  - unfold handleKeyPress. rewrite Hguard. reflexivity.
  - unfold togglePause. rewrite Hguard. reflexivity.
Qed.

Lemma idle_and_over_ignore_commands_witness :
  step (KeyDown " ") 0 scanSource
       (withGameState atLeftWall (withGameOver (gameState atLeftWall) true))
  = Some (withGameState atLeftWall
            (withGameOver (gameState atLeftWall) true)).
Proof.
  apply (idle_and_over_ignore_commands (KeyDown " ") 0 scanSource
           (withGameState atLeftWall
              (withGameOver (gameState atLeftWall) true))).
  - right. reflexivity.
  - discriminate.
  - discriminate.
Defined.

(** Pausing and resuming gives back the very same state, by the button as by
    the space key. *)
Theorem togglePause_twice (e : Engine) :
  togglePause (togglePause e) = e /\
  handleKeyPress " " (handleKeyPress " " e) = e.
Proof.
  assert (H : togglePause (togglePause e) = e).
  { unfold togglePause.
    destruct e as [[sn fd dir sc over paused] hs playing].
    destruct playing, over, paused; reflexivity. }
  split; [exact H|].
  rewrite !handleKeyPress_space by reflexivity. exact H.
Qed.

(** ** The high score *)

(** No command ever lowers the high score, and only a tick can raise it;
    Start and Reset keep it.  A command also keeps the score between 0 and
    the high score once it is there. *)
Theorem step_highScore (c : Command) (fuel : nat) (random : RandomSource)
    (e e' : Engine) :
  step c fuel random e = Some e' ->
  highScore e <= highScore e' /\
  (c <> Tick -> highScore e' = highScore e) /\
  (0 <= score (gameState e) <= highScore e ->
   0 <= score (gameState e') <= highScore e').
Proof.
  destruct c as [| |key| |]; cbn [step].
  - unfold startGame.
    destruct (generateFood fuel random INITIAL_SNAKE); [|discriminate].
    intros [= <-]. simpl. repeat split; lia.
  - intros Htick.
    assert (Hmove : e' = e \/ moveSnake fuel random e = Some e').
    { unfold advanceTick in Htick. destruct (loopActive e); [auto|].
      injection Htick as <-. auto. }
    destruct Hmove as [->|Hmove]; [repeat split; (lia || congruence)|].
    apply moveSnake_inv in Hmove.
    destruct Hmove as [->|[_ [h [_ [[_ ->]|[[_ [_ [_ [nf [_ ->]]]]]|[_ [_ [_ ->]]]]]]]]];
      cbn [afterEating withGameState withGameOver withSnake gameState
           highScore score];
      repeat split; try lia; try congruence;
      destruct (Z.gtb_spec (score (gameState e) + 10) (highScore e)); lia.
  - intros [= <-].
    pose proof (handleKeyPress_flags key e) as [_ [_ [Hhs _]]].
    rewrite Hhs, handleKeyPress_score. repeat split; (lia || congruence).
  - intros [= <-].
    pose proof (togglePause_flags e) as [_ [_ [_ [Hhs _]]]].
    rewrite Hhs, togglePause_score. repeat split; (lia || congruence).
  - intros [= <-]. simpl. repeat split; lia.
Qed.

Lemma step_highScore_witness :
  highScore foodAhead
  <= highScore (afterEating foodAhead (mkPosition 3 4)) /\
  (Tick <> Tick ->
   highScore (afterEating foodAhead (mkPosition 3 4)) = highScore foodAhead) /\
  (0 <= score (gameState foodAhead) <= highScore foodAhead ->
   0 <= score (gameState (afterEating foodAhead (mkPosition 3 4)))
   <= highScore (afterEating foodAhead (mkPosition 3 4))).
Proof.
  apply (step_highScore Tick 1 (cellSource 3 4) foodAhead).
  reflexivity.
Defined.

(** ** Turning *)

Lemma requestedHeading_valid (key h : string) :
  requestedHeading key = Some h -> validHeading h.
Proof.
  intros H. apply requestedHeading_cases in H. unfold validHeading.
  destruct H as [_ [[_ ->]|[[_ [_ ->]]|[[_ [_ [_ ->]]]|[_ [_ [_ [_ ->]]]]]]]];
    auto.
Qed.

Lemma opposite_valid (d : string) :
  validHeading d ->
  validHeading (opposite d) /\ opposite (opposite d) = d /\ opposite d <> d.
Proof.
  unfold validHeading.
  intros [ -> | [ -> | [ -> | -> ] ] ]; simpl; repeat split;
    auto; discriminate.
Qed.

(** A heading key on an engine that is Running or Paused. *)
Lemma handleKeyPress_request (key h : string) (e : Engine) :
  requestedHeading key = Some h ->
  negb (isPlaying e) || gameOver (gameState e) = false ->
  handleKeyPress key e
  = if (direction (gameState e) =? opposite h)%string
       || (direction (gameState e) =? h)%string
    then e
    else withGameState e (withDirection (gameState e) h).
Proof.
  intros Hreq Hguard.
  destruct (requestedHeading_cases key h Hreq) as [Hspace Hcases].
  unfold handleKeyPress. rewrite Hguard, Hspace. cbv zeta.
  destruct Hcases as [[K ->]|[[K1 [K ->]]|[[K1 [K2 [K ->]]]|[K1 [K2 [K3 [K ->]]]]]]];
    rewrite ?K1, ?K2, ?K3, K;
    apply heading_update; discriminate.
Qed.

Lemma handleKeyPress_other_key (key : string) (e : Engine) :
  requestedHeading key = None -> keyIs key [" "] = false ->
  handleKeyPress key e = e.
Proof.
  unfold requestedHeading, handleKeyPress. intros Hreq Hspace.
  destruct (negb (isPlaying e) || gameOver (gameState e)); [reflexivity|].
  rewrite Hspace. cbv zeta.
  destruct (keyIs key ["ArrowUp"; "w"; "W"]); [discriminate|].
  destruct (keyIs key ["ArrowDown"; "s"; "S"]); [discriminate|].
  destruct (keyIs key ["ArrowLeft"; "a"; "A"]); [discriminate|].
  destruct (keyIs key ["ArrowRight"; "d"; "D"]); [discriminate|].
  rewrite String.eqb_refl. reflexivity.
Qed.

(** One key press never turns the snake round: whatever the key and the
    state, the heading after the press is not the reverse of a valid heading
    before it. *)
Theorem handleKeyPress_never_reverses (key : string) (e : Engine) :
  validHeading (direction (gameState e)) ->
  direction (gameState (handleKeyPress key e))
  <> opposite (direction (gameState e)).
Proof.
  intros Hvalid.
  pose proof (opposite_valid _ Hvalid) as [_ [_ Hopp]].
  destruct (negb (isPlaying e) || gameOver (gameState e)) eqn:Hguard.
  { unfold handleKeyPress. rewrite Hguard. congruence. }
  destruct (keyIs key [" "]) eqn:Hspace.
  { rewrite (handleKeyPress_space key e Hspace).
    rewrite (proj1 (proj2 (proj2 (togglePause_flags e)))). congruence. }
  destruct (requestedHeading key) as [h|] eqn:Hreq.
  - rewrite (handleKeyPress_request key h e Hreq Hguard).
    destruct (String.eqb_spec (direction (gameState e)) (opposite h))
      as [Hrev|Hrev]; simpl; [congruence|].
    destruct (direction (gameState e) =? h)%string; [congruence|].
    simpl. intros Hh. apply Hrev. rewrite Hh.
    symmetry. apply (opposite_valid _ Hvalid).
  - rewrite (handleKeyPress_other_key key e Hreq Hspace). congruence.
Qed.

Lemma handleKeyPress_never_reverses_witness :
  direction (gameState (handleKeyPress "ArrowLeft" foodAhead))
  <> opposite (direction (gameState foodAhead)).
Proof.
  apply (handleKeyPress_never_reverses "ArrowLeft" foodAhead).
  right. right. right. reflexivity.
Defined.

(** Two key presses do turn the snake round: on an engine that is Running or
    Paused, a key for a heading across the current one followed by the key
    for the reverse of the current one leaves the snake heading backwards;
    if the engine is Running and the cell behind the head is the second cell
    of the snake, the next tick ends the game. *)
Theorem two_key_presses_reverse
    (k1 k2 h1 : string) (fuel : nat) (random : RandomSource) (e : Engine) :
  phase e = Running \/ phase e = Paused ->
  validHeading (direction (gameState e)) ->
  requestedHeading k1 = Some h1 ->
  h1 <> direction (gameState e) ->
  h1 <> opposite (direction (gameState e)) ->
  requestedHeading k2 = Some (opposite (direction (gameState e))) ->
  let turned := handleKeyPress k2 (handleKeyPress k1 e) in
  turned
  = withGameState e
      (withDirection (gameState e) (opposite (direction (gameState e)))) /\
  (phase e = Running ->
   forall a b rest,
     snake (gameState e) = a :: b :: rest ->
     b = moveHead (opposite (direction (gameState e))) a ->
     advanceTick fuel random turned
     = Some (withGameState turned (withGameOver (gameState turned) true))).
Proof.
  intros Hphase Hvalid Hreq1 Hne1 Hne2 Hreq2 turned.
  pose proof (opposite_valid _ Hvalid) as [Hov [Hoo Hod]].
  pose proof (requestedHeading_valid _ _ Hreq1) as Hv1.
  pose proof (opposite_valid _ Hv1) as [_ [Hoo1 _]].
  assert (Hguard : negb (isPlaying e) || gameOver (gameState e) = false).
  { destruct (negb (isPlaying e) || gameOver (gameState e)) eqn:Hg;
      [|reflexivity].
    apply guard_phase in Hg. destruct Hphase, Hg; congruence. }
  assert (Hturned : turned
    = withGameState e
        (withDirection (gameState e) (opposite (direction (gameState e))))).
  { unfold turned.
    rewrite (handleKeyPress_request k1 h1 e Hreq1 Hguard).
    destruct (String.eqb_spec (direction (gameState e)) (opposite h1))
      as [Hrev|_].
    { exfalso. apply Hne2. rewrite Hrev. symmetry. exact Hoo1. }
    destruct (String.eqb_spec (direction (gameState e)) h1) as [Hsame|_];
      [congruence|].
    cbn [orb].
    rewrite (handleKeyPress_request k2 _ _ Hreq2) by exact Hguard.
    cbn [withGameState withDirection gameState direction].
    rewrite Hoo.
    destruct (String.eqb_spec h1 (direction (gameState e))); [congruence|].
    destruct (String.eqb_spec h1 (opposite (direction (gameState e))));
      [congruence|].
    reflexivity. }
  split; [exact Hturned|].
  intros Hrun a b rest Hsnake Hb.
  rewrite Hturned.
  rewrite advanceTick_Running
    by (revert Hrun; unfold phase; simpl; trivial).
  apply (moveSnake_collision _ _ _ b).
  - apply Running_not_halted in Hrun. exact Hrun.
  - unfold movedHead. simpl. rewrite Hsnake, Hb. reflexivity.
  - simpl. rewrite Hsnake.
    replace (occupied (a :: b :: rest) b) with true; [apply orb_true_r|].
    symmetry. apply occupied_true. right. left. reflexivity.
Qed.

Lemma two_key_presses_reverse_witness :
  let turned := handleKeyPress "a" (handleKeyPress "ArrowUp" twoCells) in
  turned
  = withGameState twoCells
      (withDirection (gameState twoCells)
         (opposite (direction (gameState twoCells)))) /\
  (phase twoCells = Running ->
   forall a b rest,
     snake (gameState twoCells) = a :: b :: rest ->
     b = moveHead (opposite (direction (gameState twoCells))) a ->
     advanceTick 0 scanSource turned
     = Some (withGameState turned (withGameOver (gameState turned) true))).
Proof.
  apply (two_key_presses_reverse "ArrowUp" "a" "UP" 0 scanSource twoCells).
  - left. reflexivity.
  - right. right. right. reflexivity.
  - reflexivity.
  - discriminate.
  - discriminate.
  - reflexivity.
Defined.

(** * Notifications, storage and the key handler *)

(** ** The state the operations with effects return *)

Lemma moveSnakeFx_state (fuel : nat) (random : RandomSource) (e : Engine) :
  option_map fst (moveSnakeFx fuel random e) = moveSnake fuel random e.
Proof.
  unfold moveSnakeFx, moveSnake.
  destruct (gameOver (gameState e) || isPaused (gameState e)); [reflexivity|].
  destruct (snake (gameState e)) as [|snake0 rest]; [reflexivity|].
  cbv zeta.
  destruct (hitsWall (moveHead (direction (gameState e)) snake0));
    [reflexivity|].
  destruct (occupied (snake0 :: rest)
              (moveHead (direction (gameState e)) snake0)); [reflexivity|].
  destruct ((x (moveHead (direction (gameState e)) snake0)
             =? x (food (gameState e)))
            && (y (moveHead (direction (gameState e)) snake0)
                =? y (food (gameState e)))); [|reflexivity].
  destruct (generateFood fuel random
              (moveHead (direction (gameState e)) snake0 :: snake0 :: rest));
    reflexivity.
Qed.

Lemma advanceTickFx_state (fuel : nat) (random : RandomSource) (e : Engine) :
  option_map fst (advanceTickFx fuel random e) = advanceTick fuel random e.
Proof.
  unfold advanceTickFx, advanceTick.
  destruct (loopActive e); [apply moveSnakeFx_state | reflexivity].
Qed.

Lemma startGameFx_state (fuel : nat) (random : RandomSource) (e : Engine) :
  option_map fst (startGameFx fuel random e) = startGame fuel random e.
Proof.
  unfold startGameFx, startGame.
  destruct (generateFood fuel random INITIAL_SNAKE); reflexivity.
Qed.

Lemma togglePauseFx_state (saw : Closure) (e : Engine) :
  seesCurrent saw e -> fst (togglePauseFx saw e) = togglePause e.
Proof.
  intros [Hp [Ho _]]. unfold togglePauseFx, togglePause.
  rewrite Hp, Ho.
  destruct (negb (isPlaying e) || gameOver (gameState e)); reflexivity.
Qed.

Lemma handleKeyPressFx_state (saw : Closure) (key : string) (e : Engine) :
  seesCurrent saw e ->
  fst (handleKeyPressFx saw key e) = handleKeyPress key e.
Proof.
  intros Hsees. pose proof Hsees as [Hp [Ho Hd]].
  unfold handleKeyPressFx, handleKeyPress. rewrite Hp, Ho, Hd.
  destruct (negb (isPlaying e) || gameOver (gameState e)) eqn:Hguard;
    [reflexivity|].
  destruct (keyIs key [" "]).
  - rewrite (togglePauseFx_state saw e Hsees).
    unfold togglePause. rewrite Hguard. reflexivity.
  - cbv zeta.
    match goal with
    | |- fst (if ?b then _ else _) = _ => destruct b; reflexivity
    end.
Qed.

Lemma closureOf_seesCurrent (e : Engine) : seesCurrent (closureOf e) e.
Proof. repeat split. Qed.

Lemma renewKeyHandler_seesCurrent (inPlace : Closure) (e : Engine) :
  seesCurrent (renewKeyHandler inPlace e) e.
Proof.
  unfold renewKeyHandler.
  destruct (Bool.eqb (sawPlaying inPlace) (isPlaying e)
            && Bool.eqb (gameOver (sawState inPlace)) (gameOver (gameState e))
            && (direction (sawState inPlace) =? direction (gameState e))%string)
    eqn:Hsame.
  - apply andb_true_iff in Hsame. destruct Hsame as [Hsame Hd].
    apply andb_true_iff in Hsame. destruct Hsame as [Hp Ho].
    apply Bool.eqb_prop in Hp, Ho. apply String.eqb_eq in Hd.
    repeat split; assumption.
  - apply closureOf_seesCurrent.
Qed.

Lemma renewKeyHandler_keeps (inPlace : Closure) (e : Engine) :
  seesCurrent inPlace e -> renewKeyHandler inPlace e = inPlace.
Proof.
  intros [Hp [Ho Hd]]. unfold renewKeyHandler.
  rewrite Hp, Ho, Hd, !Bool.eqb_reflx, String.eqb_refl. reflexivity.
Qed.

Lemma reachableComponent_seesCurrent (w : Component) :
  reachableComponent w -> seesCurrent (keyHandler w) (engine w).
Proof.
  intros [saved w0 Hmount | w0 c fuel random w' effects _ _ Hstep].
  - unfold mountComponent in Hmount.
    destruct (loadHighScore saved); [|discriminate].
    injection Hmount as <-. apply closureOf_seesCurrent.
  - unfold componentStep in Hstep.
    match type of Hstep with
    | match ?o with _ => _ end = _ => destruct o as [[e' fx]|]
    end; [|discriminate].
    injection Hstep as <- _. apply renewKeyHandler_seesCurrent.
Qed.

Lemma componentStep_engine (c : Command) (fuel : nat) (random : RandomSource)
    (w : Component) :
  seesCurrent (keyHandler w) (engine w) ->
  option_map (fun r => engine (fst r)) (componentStep c fuel random w)
  = step c fuel random (engine w).
Proof.
  intros Hsees. unfold componentStep.
  destruct c as [| |key| |]; cbn [step].
  - rewrite <- startGameFx_state.
    destruct (startGameFx fuel random (engine w)) as [[e' fx]|]; reflexivity.
  - rewrite <- advanceTickFx_state.
    destruct (advanceTickFx fuel random (engine w)) as [[e' fx]|];
      reflexivity.
  - rewrite <- (handleKeyPressFx_state _ key _ Hsees).
    destruct (handleKeyPressFx (keyHandler w) key (engine w)). reflexivity.
  - rewrite <- (togglePauseFx_state _ _ (closureOf_seesCurrent (engine w))).
    destruct (togglePauseFx (closureOf (engine w)) (engine w)). reflexivity.
  - reflexivity.
Qed.

Lemma reachableComponent_engine (w : Component) :
  reachableComponent w -> reachable (engine w).
Proof.
  induction 1 as [saved w Hmount | w c fuel random w' effects Hw IH Hvalid Hstep].
  - unfold mountComponent in Hmount.
    destruct (loadHighScore saved); [|discriminate].
    injection Hmount as <-. apply reach_mount.
  - apply (reach_step (engine w) c fuel random); [exact IH | exact Hvalid |].
    rewrite <- (componentStep_engine c fuel random w
                  (reachableComponent_seesCurrent w Hw)).
    rewrite Hstep. reflexivity.
Qed.

(** ** Reading the saved high score back *)

Lemma digit_not_blank_nor_sign (c : ascii) :
  isDigit c = true ->
  isWhiteSpace c = false /\ (c =? "-")%char = false /\ (c =? "+")%char = false.
Proof.
  destruct c as [[] [] [] [] [] [] [] []]; vm_compute; intros H;
    try discriminate; repeat split.
Qed.

Lemma string_of_uint_digits (d : Decimal.uint) :
  digitPrefix (NilEmpty.string_of_uint d) = NilEmpty.string_of_uint d.
Proof.
  induction d; simpl; try reflexivity;
    change (isDigit _) with true; cbv iota; f_equal; assumption.
Qed.

Lemma string_of_uint_head (d : Decimal.uint) :
  d <> Decimal.Nil ->
  exists c rest, NilEmpty.string_of_uint d = String c rest /\ isDigit c = true.
Proof.
  destruct d; [congruence| | | | | | | | | |]; intros _; simpl; eauto.
Qed.

Lemma parseInt_digits (d : Decimal.uint) :
  d <> Decimal.Nil ->
  parseInt (NilEmpty.string_of_uint d) = Some (Z.of_uint d).
Proof.
  intros Hd. destruct (string_of_uint_head d Hd) as [c [rest [Hs Hc]]].
  destruct (digit_not_blank_nor_sign c Hc) as [Hw [Hm Hp]].
  unfold parseInt. rewrite Hs. cbn [trimStart]. rewrite Hw, Hm, Hp.
  cbn [orb]. rewrite <- Hs, string_of_uint_digits, NilEmpty.usu.
  destruct d; [congruence| | | | | | | | | |];
    rewrite Z.mul_1_l; reflexivity.
Qed.

Lemma parseInt_numberToString (n : Z) :
  parseInt (numberToString n) = Some n.
Proof.
  unfold numberToString. destruct n as [|p|p]; [reflexivity| |].
  - cbn [Z.to_int NilZero.string_of_int].
    pose proof (DecimalPos.Unsigned.to_uint_nonnil p) as Hnn.
    unfold NilZero.string_of_uint.
    replace (match Pos.to_uint p with
             | Decimal.Nil => "0"
             | _ => NilEmpty.string_of_uint (Pos.to_uint p)
             end) with (NilEmpty.string_of_uint (Pos.to_uint p))
      by (destruct (Pos.to_uint p); [congruence|reflexivity..]).
    rewrite (parseInt_digits _ Hnn). f_equal.
    change (Z.of_uint (Pos.to_uint p)) with (Z.of_int (Z.to_int (Z.pos p))).
    apply DecimalZ.of_to.
  - cbn [Z.to_int NilZero.string_of_int].
    pose proof (DecimalPos.Unsigned.to_uint_nonnil p) as Hnn.
    unfold NilZero.string_of_uint.
    replace (match Pos.to_uint p with
             | Decimal.Nil => "0"
             | _ => NilEmpty.string_of_uint (Pos.to_uint p)
             end) with (NilEmpty.string_of_uint (Pos.to_uint p))
      by (destruct (Pos.to_uint p); [congruence|reflexivity..]).
    destruct (string_of_uint_head _ Hnn) as [c [rest [Hs Hc]]].
    unfold parseInt. cbn [trimStart].
    change (isWhiteSpace "-") with false. cbv iota.
    change ("-" =? "-")%char with true. cbn [orb]. cbv iota.
    rewrite string_of_uint_digits, NilEmpty.usu.
    replace (Z.neg p) with (-1 * Z.of_uint (Pos.to_uint p)).
    + destruct (Pos.to_uint p); [congruence|reflexivity..].
    + change (Z.of_uint (Pos.to_uint p)) with (Z.of_int (Z.to_int (Z.pos p))).
      rewrite DecimalZ.of_to. reflexivity.
Qed.

Lemma numberToString_nonempty (n : Z) : numberToString n <> "".
Proof.
  intros H. pose proof (parseInt_numberToString n) as Hp.
  rewrite H in Hp. discriminate.
Qed.

(** What the game writes with [newScore.toString()] it reads back with
    [parseInt(saved, 10)] on the next mount: the saved string of an integer
    in the range in which JavaScript numbers are exact loads as that
    integer. *)
Theorem loadHighScore_numberToString (n : Z) :
  Z.abs n < 2 ^ 53 ->
  loadHighScore (Some (numberToString n)) = Some n.
Proof.
  intros _. unfold loadHighScore.
  destruct (String.eqb_spec (numberToString n) "") as [H|_].
  - exfalso. exact (numberToString_nonempty n H).
  - apply parseInt_numberToString.
Qed.

Lemma loadHighScore_numberToString_witness :
  loadHighScore (Some (numberToString 3980)) = Some 3980.
Proof.
  apply (loadHighScore_numberToString 3980). reflexivity.
Defined.

(** ** What a tick announces *)

Lemma moveSnakeFx_effects (fuel : nat) (random : RandomSource)
    (e e' : Engine) (fx : list Effect) :
  moveSnakeFx fuel random e = Some (e', fx) ->
  (fx = [] /\ gameOver (gameState e') = gameOver (gameState e) /\
   score (gameState e') = score (gameState e) /\
   highScore e' = highScore e) \/
  (gameOver (gameState e) = false /\ gameOver (gameState e') = true /\
   score (gameState e') = score (gameState e) /\
   highScore e' = highScore e /\
   fx = [ToastError ("Game Over! Final Score: "
                     ++ numberToString (score (gameState e')))]) \/
  (gameOver (gameState e') = gameOver (gameState e) /\
   score (gameState e') = score (gameState e) + 10 /\
   highScore e < score (gameState e') /\
   highScore e' = score (gameState e') /\
   fx = [SetItem "snakeHighScore" (numberToString (score (gameState e')));
         ToastSuccess ("New High Score: "
                       ++ numberToString (score (gameState e')) ++ "!")]) \/
  (gameOver (gameState e') = gameOver (gameState e) /\
   score (gameState e') = score (gameState e) + 10 /\
   score (gameState e') <= highScore e /\
   highScore e' = highScore e /\
   fx = [ToastSuccess ("Score: " ++ numberToString (score (gameState e')))]).
Proof.
  unfold moveSnakeFx.
  destruct (gameOver (gameState e) || isPaused (gameState e)) eqn:Hrun.
  { intros [= <- <-]. left. auto. }
  apply orb_false_iff in Hrun. destruct Hrun as [Hover _].
  destruct (snake (gameState e)) as [|snake0 rest].
  { intros [= <- <-]. left. auto. }
  cbv zeta.
  destruct (hitsWall (moveHead (direction (gameState e)) snake0)).
  { intros [= <- <-]. right. left. simpl. auto. }
  destruct (occupied (snake0 :: rest)
              (moveHead (direction (gameState e)) snake0)).
  { intros [= <- <-]. right. left. simpl. auto. }
  destruct ((x (moveHead (direction (gameState e)) snake0)
             =? x (food (gameState e)))
            && (y (moveHead (direction (gameState e)) snake0)
                =? y (food (gameState e)))).
  2:{ intros [= <- <-]. left. simpl. auto. }
  destruct (generateFood fuel random
              (moveHead (direction (gameState e)) snake0 :: snake0 :: rest));
    [|discriminate].
  destruct (Z.gtb_spec (score (gameState e) + 10) (highScore e)) as [Hgt|Hle];
    intros [= <- <-]; right; right; [left|right]; simpl;
    repeat split; try reflexivity; lia.
Qed.

(** What a tick tells the player is true.  It is silent when nothing is
    eaten and the game goes on (or the engine is not Running); it shows the
    game-over toast, with the score the game ended on, exactly when it takes
    the engine from Running to Over; and when food is eaten it shows the new
    score, as a new high score (after writing it to [localStorage]) exactly
    when the new score is above the old high score. *)
Theorem advanceTickFx_announcements
    (fuel : nat) (random : RandomSource) (e e' : Engine) (fx : list Effect) :
  advanceTickFx fuel random e = Some (e', fx) ->
  (fx = [] /\ phase e' = phase e /\
   score (gameState e') = score (gameState e) /\
   highScore e' = highScore e) \/
  (phase e = Running /\ phase e' = Over /\
   score (gameState e') = score (gameState e) /\
   highScore e' = highScore e /\
   fx = [ToastError ("Game Over! Final Score: "
                     ++ numberToString (score (gameState e')))]) \/
  (phase e = Running /\ phase e' = Running /\
   score (gameState e') = score (gameState e) + 10 /\
   highScore e < score (gameState e') /\
   highScore e' = score (gameState e') /\
   fx = [SetItem "snakeHighScore" (numberToString (score (gameState e')));
         ToastSuccess ("New High Score: "
                       ++ numberToString (score (gameState e')) ++ "!")]) \/
  (phase e = Running /\ phase e' = Running /\
   score (gameState e') = score (gameState e) + 10 /\
   score (gameState e') <= highScore e /\
   highScore e' = highScore e /\
   fx = [ToastSuccess ("Score: " ++ numberToString (score (gameState e')))]).
Proof.
  unfold advanceTickFx. destruct (loopActive e) eqn:Hloop.
  2:{ intros [= <- <-]. left. auto. }
  apply loopActive_Running in Hloop.
  pose proof (Running_flags _ Hloop) as [Hplay [Hover Hpaused]].
  intros Hfx.
  assert (Hmove : moveSnake fuel random e = Some e').
  { rewrite <- moveSnakeFx_state, Hfx. reflexivity. }
  pose proof (moveSnake_frame _ _ _ _ Hmove) as [Hp [Hpa _]].
  assert (Hphase : forall b, gameOver (gameState e') = b ->
                   phase e' = if b then Over else Running).
  { intros b Hb. unfold phase. rewrite Hp, Hplay, Hb, Hpa, Hpaused.
    destruct b; reflexivity. }
  apply moveSnakeFx_effects in Hfx.
  destruct Hfx as [[-> [Ho [Hs Hh]]]|[[_ [Ho [Hs [Hh ->]]]]
                  |[[Ho [Hs [Hlt [Hh ->]]]]|[Ho [Hs [Hle [Hh ->]]]]]]].
  - left. rewrite (Hphase false) by congruence. rewrite Hloop.
    repeat split; auto.
  - right. left. rewrite (Hphase true Ho). repeat split; auto.
  - right. right. left. rewrite (Hphase false) by congruence.
    repeat split; auto.
  - right. right. right. rewrite (Hphase false) by congruence.
    repeat split; auto.
Qed.

Lemma advanceTickFx_announcements_witness :
  exists e' fx,
    advanceTickFx 0 scanSource atLeftWall = Some (e', fx) /\
    fx = [ToastError "Game Over! Final Score: 0"] /\
    phase e' = Over.
Proof.
  eexists. eexists. split; [reflexivity|].
  destruct (advanceTickFx_announcements 0 scanSource atLeftWall _ _ eq_refl)
    as [[H _]|[[_ [H _]]|[[_ [H _]]|[_ [H _]]]]]; try discriminate H.
  split; [reflexivity | exact H].
Defined.

(** ** The saved high score *)

Lemma handleKeyPressFx_effects (saw : Closure) (key : string) (e : Engine) :
  highScore (fst (handleKeyPressFx saw key e)) = highScore e /\
  storeEffects (snd (handleKeyPressFx saw key e)) = fun saved => saved.
Proof.
  unfold handleKeyPressFx, togglePauseFx.
  destruct (negb (sawPlaying saw) || gameOver (sawState saw)); [auto|].
  destruct (keyIs key [" "]); [auto|]. cbv zeta.
  match goal with
  | |- context [if ?b then (_, _) else _] => destruct b; auto
  end.
Qed.

Lemma componentStep_saved (c : Command) (fuel : nat) (random : RandomSource)
    (w w' : Component) (effects : list Effect) :
  componentStep c fuel random w = Some (w', effects) ->
  loadHighScore (savedHighScore w) = Some (highScore (engine w)) ->
  loadHighScore (savedHighScore w') = Some (highScore (engine w')).
Proof.
  unfold componentStep. destruct c as [| |key| |].
  - unfold startGameFx.
    destruct (generateFood fuel random INITIAL_SNAKE); [|discriminate].
    intros [= <- <-]. exact (fun H => H).
  - destruct (advanceTickFx fuel random (engine w)) as [[e' fx]|] eqn:Htick;
      [|discriminate].
    intros [= <- <-]. cbn [savedHighScore engine].
    apply advanceTickFx_announcements in Htick.
    destruct Htick as [[-> [_ [_ Hh]]]|[[_ [_ [_ [Hh ->]]]]
                      |[[_ [_ [_ [_ [Hh ->]]]]]|[_ [_ [_ [_ [Hh ->]]]]]]]];
      cbn [storeEffects]; rewrite Hh; try exact (fun H => H).
    intros _. change ("snakeHighScore" =? "snakeHighScore")%string with true.
    cbv iota. unfold loadHighScore.
    destruct (String.eqb_spec (numberToString (score (gameState e'))) "")
      as [H|_].
    + exfalso. exact (numberToString_nonempty _ H).
    + apply parseInt_numberToString.
  - destruct (handleKeyPressFx (keyHandler w) key (engine w)) as [e' fx] eqn:Hk.
    intros [= <- <-]. cbn [savedHighScore engine].
    pose proof (handleKeyPressFx_effects (keyHandler w) key (engine w)) as [Hh Hs].
    rewrite Hk in Hh, Hs. cbn [fst snd] in Hh, Hs. rewrite Hh, Hs.
    exact (fun H => H).
  - unfold togglePauseFx.
    destruct (negb (sawPlaying (closureOf (engine w)))
              || gameOver (sawState (closureOf (engine w))));
      intros [= <- <-]; exact (fun H => H).
  - intros [= <- <-]. exact (fun H => H).
Qed.

(** In every reachable state of the mounted component the item saved in
    [localStorage] loads as the high score of the moment: a reload of the
    page brings the high score back. *)
Theorem reachableComponent_saved_highScore (w : Component) :
  reachableComponent w ->
  loadHighScore (savedHighScore w) = Some (highScore (engine w)).
Proof.
  induction 1 as [saved w Hmount | w c fuel random w' effects _ IH _ Hstep].
  - unfold mountComponent in Hmount.
    destruct (loadHighScore saved) as [hs|] eqn:Hload; [|discriminate].
    injection Hmount as <-. exact Hload.
  - eapply componentStep_saved; eassumption.
Qed.

Lemma afterFirstFood_reachable : reachableComponent afterFirstFood.
Proof.
  apply (reach_componentStep
           (mkComponent foodAhead (closureOf foodAhead) None)
           Tick 1 (cellSource 3 4) afterFirstFood
           [SetItem "snakeHighScore" "10";
            ToastSuccess "New High Score: 10!"]).
  - apply (reach_componentStep
             (mkComponent (initialEngine 0) (closureOf (initialEngine 0)) None)
             Start 1 (cellSource 11 10) _
             [ToastSuccess "Game Started! Use arrow keys or WASD to move"]).
    + apply (reach_mounted None). reflexivity.
    + apply cellSource_valid; lia.
    + reflexivity.
  - apply cellSource_valid; lia.
  - reflexivity.
Qed.

Lemma reachableComponent_saved_highScore_witness :
  loadHighScore (savedHighScore afterFirstFood)
  = Some (highScore (engine afterFirstFood)).
Proof.
  apply (reachableComponent_saved_highScore afterFirstFood).
  exact afterFirstFood_reachable.
Defined.

(** ** The key handler *)

(** The key handler in place may be the one of an earlier render; still, in
    every reachable state of the component each command changes the state
    exactly as the operation applied to the state of the moment does. *)
Theorem componentStep_is_step
    (c : Command) (fuel : nat) (random : RandomSource) (w : Component) :
  reachableComponent w ->
  option_map (fun r => engine (fst r)) (componentStep c fuel random w)
  = step c fuel random (engine w).
Proof.
  intros Hw. apply componentStep_engine.
  apply reachableComponent_seesCurrent. exact Hw.
Qed.

Lemma componentStep_is_step_witness :
  option_map (fun r => engine (fst r))
             (componentStep (KeyDown "ArrowUp") 0 scanSource afterFirstFood)
  = step (KeyDown "ArrowUp") 0 scanSource (engine afterFirstFood).
Proof.
  apply (componentStep_is_step (KeyDown "ArrowUp") 0 scanSource
           afterFirstFood).
  exact afterFirstFood_reachable.
Defined.

(** The pause button announces the state it leads to: "Game Paused" when it
    pauses a running game, "Game Resumed" when it resumes a paused one, and
    nothing when the engine is Idle or Over. *)
Theorem pause_button_announces
    (fuel : nat) (random : RandomSource) (w w' : Component)
    (effects : list Effect) :
  componentStep TogglePause fuel random w = Some (w', effects) ->
  match phase (engine w) with
  | Running =>
      phase (engine w') = Paused /\ effects = [ToastInfo "Game Paused"]
  | Paused =>
      phase (engine w') = Running /\ effects = [ToastInfo "Game Resumed"]
  | Idle | Over => engine w' = engine w /\ effects = []
  end.
Proof.
  unfold componentStep, togglePauseFx, closureOf, phase.
  cbn [sawPlaying sawState].
  destruct (engine w) as [[sn fd dir sc over paused] hs playing].
  destruct playing, over, paused; simpl; intros [= <- <-]; split; reflexivity.
Qed.

Lemma pause_button_announces_witness :
  phase (engine (mkComponent pausedGame (closureOf pausedGame) None))
  = Paused /\
  exists w',
    componentStep TogglePause 0 scanSource
      (mkComponent pausedGame (closureOf pausedGame) None)
    = Some (w', [ToastInfo "Game Resumed"]) /\
    phase (engine w') = Running.
Proof.
  split; [reflexivity|]. eexists. split; [reflexivity|].
  exact (proj1 (pause_button_announces 0 scanSource
                  (mkComponent pausedGame (closureOf pausedGame) None)
                  _ _ eq_refl)).
Defined.

(** The space key does not: the key handler is not renewed when only the
    pause flag changes, so in every reachable state that is Running or
    Paused, pausing and resuming with the space key shows the same toast
    twice, although the first press changes the state and the second
    changes it back. *)
Theorem space_key_repeats_announcement
    (fuel fuel' : nat) (random random' : RandomSource) (w : Component) :
  reachableComponent w ->
  phase (engine w) = Running \/ phase (engine w) = Paused ->
  exists message w1 w2,
    componentStep (KeyDown " ") fuel random w
    = Some (w1, [ToastInfo message]) /\
    componentStep (KeyDown " ") fuel' random' w1
    = Some (w2, [ToastInfo message]) /\
    (message = "Game Paused" \/ message = "Game Resumed") /\
    phase (engine w1) <> phase (engine w) /\
    engine w2 = engine w.
Proof.
  intros Hw Hphase.
  pose proof (reachableComponent_seesCurrent w Hw) as Hsees.
  pose proof Hsees as [Hp [Ho Hd]].
  assert (Hguard : negb (sawPlaying (keyHandler w))
                   || gameOver (sawState (keyHandler w)) = false).
  { rewrite Hp, Ho.
    destruct (negb (isPlaying (engine w)) || gameOver (gameState (engine w)))
      eqn:Hg; [|reflexivity].
    apply guard_phase in Hg. destruct Hphase, Hg; congruence. }
  set (flipped := withGameState (engine w)
                    (withIsPaused (gameState (engine w))
                       (negb (isPaused (gameState (engine w)))))).
  assert (Hkeeps : renewKeyHandler (keyHandler w) flipped = keyHandler w).
  { apply renewKeyHandler_keeps. exact Hsees. }
  exists (if isPaused (sawState (keyHandler w)) then "Game Resumed"
          else "Game Paused").
  eexists. eexists.
  split; [|split; [|split; [|split]]].
  - unfold componentStep, handleKeyPressFx, togglePauseFx.
    rewrite Hguard. cbn [keyIs existsb String.eqb Ascii.eqb Bool.eqb orb].
    reflexivity.
  - unfold componentStep, handleKeyPressFx, togglePauseFx.
    cbn [engine keyHandler savedHighScore]. fold flipped.
    rewrite Hkeeps, Hguard.
    cbn [keyIs existsb String.eqb Ascii.eqb Bool.eqb orb].
    reflexivity.
  - destruct (isPaused (sawState (keyHandler w))); auto.
  - cbn [engine]. fold flipped.
    destruct (phase_cases (engine w))
      as [[Hi _]|[[Hv _]|[[Hpd [Hpl [Hov Hpa]]]|[Hr [Hpl [Hov Hpa]]]]]];
      try (destruct Hphase; congruence);
      unfold phase, flipped; cbn; rewrite Hpl, Hov, Hpa; simpl;
      discriminate.
  - cbn [engine].
    destruct (engine w) as [[sn fd dir sc over paused] hs playing].
    cbn. rewrite Bool.negb_involutive. reflexivity.
Qed.

Lemma space_key_repeats_announcement_witness :
  exists message w1 w2,
    componentStep (KeyDown " ") 0 scanSource afterFirstFood
    = Some (w1, [ToastInfo message]) /\
    componentStep (KeyDown " ") 0 scanSource w1
    = Some (w2, [ToastInfo message]) /\
    (message = "Game Paused" \/ message = "Game Resumed") /\
    phase (engine w1) <> phase (engine afterFirstFood) /\
    engine w2 = engine afterFirstFood.
Proof.
  apply (space_key_repeats_announcement 0 0 scanSource scanSource
           afterFirstFood).
  - exact afterFirstFood_reachable.
  - left. reflexivity.
Defined.

(** On the component of the witness the toast is "Game Paused" both times,
    also for the press that resumes the game. *)
Example space_key_after_first_food :
  exists w1 w2,
    componentStep (KeyDown " ") 0 scanSource afterFirstFood
    = Some (w1, [ToastInfo "Game Paused"]) /\
    phase (engine w1) = Paused /\
    componentStep (KeyDown " ") 0 scanSource w1
    = Some (w2, [ToastInfo "Game Paused"]) /\
    phase (engine w2) = Running.
Proof.
  eexists. eexists. split; [reflexivity|]. split; [reflexivity|].
  split; reflexivity.
Qed.

(** * Drawing and the controls *)

Lemma cellRect_onCanvas (fillStyle : string) (c : Position) :
  inGrid c -> onCanvas (cellRect fillStyle c).
Proof.
  unfold inGrid, GRID_SIZE, cellRect, onCanvas.
  change cellSize with 20. change canvasWidth with 400.
  change canvasHeight with 400. lia.
Qed.

Lemma drawSnake_onCanvas (snake : list Position) :
  forall index,
    Forall inGrid snake -> Forall onCanvas (drawSnake index snake).
Proof.
  induction snake as [|segment rest IH]; intros index Hgrid; simpl.
  - constructor.
  - inversion Hgrid as [|? ? Hc Hrest]. constructor.
    + apply cellRect_onCanvas. exact Hc.
    + apply IH. exact Hrest.
Qed.

Lemma drawGrid_onCanvas : Forall onCanvas drawGrid.
Proof.
  unfold drawGrid. apply Forall_forall. intros op Hin.
  apply in_flat_map in Hin. destruct Hin as [i [Hi Hop]].
  apply in_map_iff in Hi. destruct Hi as [n [<- Hn]].
  apply in_seq in Hn. change (Z.to_nat GRID_SIZE) with 20%nat in Hn.
  destruct Hop as [<-|[<-|[]]]; unfold onCanvas;
    change cellSize with 20; change canvasWidth with 400;
    change canvasHeight with 400; lia.
Qed.

(** Whatever is drawn for a reachable state stays on the canvas: the
    background, the 42 lines of the grid, and the squares of the snake and
    of the food. *)
Theorem render_onCanvas (hasContext : bool) (e : Engine) :
  reachable e -> Forall onCanvas (render hasContext (gameState e)).
Proof.
  intros Hreach. apply reachable_wellFormed in Hreach.
  destruct Hreach as [_ Hgrid _ Hfood _].
  unfold render. destruct hasContext; [|constructor].
  constructor.
  - unfold onCanvas. change canvasWidth with 400.
    change canvasHeight with 400. lia.
  - apply Forall_app. split; [exact drawGrid_onCanvas|].
    apply Forall_app. split.
    + apply drawSnake_onCanvas. exact Hgrid.
    + constructor; [|constructor]. apply cellRect_onCanvas. exact Hfood.
Qed.

Lemma render_onCanvas_witness :
  Forall onCanvas (render true (gameState lastFood)).
Proof.
  apply (render_onCanvas true lastFood). exact lastFood_reachable.
Defined.

Lemma cellRect_apart (s1 s2 : string) (a b : Position) :
  a <> b -> apart (cellRect s1 a) (cellRect s2 b).
Proof.
  intros Hne. unfold apart, cellRect. change cellSize with 20.
  destruct a as [ax ay], b as [bx by']. simpl.
  destruct (Z.eq_dec ax bx) as [->|Hx].
  - destruct (Z.eq_dec ay by') as [->|Hy]; [congruence|]. lia.
  - lia.
Qed.

Lemma drawSnake_apart (snake : list Position) :
  forall index fillStyle c,
    ~ In c snake ->
    Forall (apart (cellRect fillStyle c)) (drawSnake index snake).
Proof.
  induction snake as [|segment rest IH]; intros index fillStyle c Hnotin;
    simpl.
  - constructor.
  - constructor.
    + apply cellRect_apart. intros ->. apply Hnotin. left. reflexivity.
    + apply IH. intros Hin. apply Hnotin. right. exact Hin.
Qed.

Lemma apart_sym (a b : DrawOp) : apart a b -> apart b a.
Proof. destruct a, b; simpl; tauto. Qed.

Lemma drawSnake_pairs (snake : list Position) :
  forall index,
    NoDup snake -> ForallOrdPairs apart (drawSnake index snake).
Proof.
  induction snake as [|segment rest IH]; intros index Hnd; simpl.
  - constructor.
  - inversion Hnd as [|? ? Hnotin Hrest]. constructor.
    + apply drawSnake_apart. exact Hnotin.
    + apply IH. exact Hrest.
Qed.

Lemma ForallOrdPairs_snoc (A : Type) (R : A -> A -> Prop) (l : list A)
    (a : A) :
  ForallOrdPairs R l -> Forall (fun b => R b a) l ->
  ForallOrdPairs R (l ++ [a]).
Proof.
  induction 1 as [|b l Hb Hl IH]; intros Hall; simpl.
  - repeat constructor.
  - inversion Hall as [|? ? Hba Hrest]. constructor.
    + apply Forall_app. split; [exact Hb | repeat constructor; exact Hba].
    + apply IH. exact Hrest.
Qed.

(** In a reachable state no two of the squares drawn for the cells of the
    snake and for the food have a pixel in common: no cell of the snake is
    painted over by another or by the food, which is drawn last. *)
Theorem render_cells_apart (e : Engine) :
  reachable e ->
  ForallOrdPairs apart
    (drawSnake 0 (snake (gameState e))
     ++ [cellRect "#ef4444" (food (gameState e))]).
Proof.
  intros Hreach. apply reachable_wellFormed in Hreach.
  destruct Hreach as [_ _ Hnd _ Hfree].
  apply ForallOrdPairs_snoc.
  - apply drawSnake_pairs. exact Hnd.
  - pose proof (drawSnake_apart (snake (gameState e)) 0 "#ef4444"
                  (food (gameState e)) Hfree) as H.
    apply Forall_forall. intros op Hin. apply apart_sym.
    exact (proj1 (Forall_forall _ _) H op Hin).
Qed.

Lemma render_cells_apart_witness :
  ForallOrdPairs apart
    (drawSnake 0 (snake (gameState curledSnake))
     ++ [cellRect "#ef4444" (food (gameState curledSnake))]).
Proof.
  apply (render_cells_apart curledSnake). exact curledSnake_reachable.
Defined.

(** What the controls show fits the state of the engine, in every reachable
    state: the Start button is there exactly in Idle, the Game Over badge
    exactly in Over and the Paused badge exactly in Paused; the Pause/Resume
    button is there and enabled exactly when [togglePause] does something,
    and it says Resume exactly in Paused. *)
Theorem view_fits_phase (e : Engine) :
  reachable e ->
  (startButton (view e) = true <-> phase e = Idle) /\
  (gameOverBadge (view e) = true <-> phase e = Over) /\
  (pausedBadge (view e) = true <-> phase e = Paused) /\
  (pauseButton (view e) = true /\ pauseButtonDisabled (view e) = false
   <-> togglePause e <> e) /\
  (pauseButtonLabel (view e) = "Resume" <-> phase e = Paused).
Proof.
  intros Hreach. apply reachable_gameInvariant in Hreach.
  destruct Hreach as [[Hf1 [Hf2 Hf3]] _ _].
  unfold view, phase, togglePause. cbn [startButton gameOverBadge pausedBadge
    pauseButton pauseButtonDisabled pauseButtonLabel].
  destruct e as [[sn fd dir sc over paused] hs playing].
  cbn [gameState isPlaying gameOver isPaused] in *.
  destruct playing, over, paused; simpl;
    repeat split; intros; try tauto; try discriminate; try congruence;
    try (exfalso; (discriminate (Hf1 eq_refl) || discriminate (Hf2 eq_refl)
                   || discriminate (Hf3 eq_refl)));
    try (destruct H; discriminate).
Qed.

Lemma view_fits_phase_witness :
  (startButton (view pausedGame) = true <-> phase pausedGame = Idle) /\
  (gameOverBadge (view pausedGame) = true <-> phase pausedGame = Over) /\
  (pausedBadge (view pausedGame) = true <-> phase pausedGame = Paused) /\
  (pauseButton (view pausedGame) = true /\
   pauseButtonDisabled (view pausedGame) = false
   <-> togglePause pausedGame <> pausedGame) /\
  (pauseButtonLabel (view pausedGame) = "Resume"
   <-> phase pausedGame = Paused).
Proof.
  apply (view_fits_phase pausedGame). exact pausedGame_reachable.
Defined.

(** * More on the tick and on the sampling loop *)

(** [generateFood] returns the first cell it draws that is off the snake:
    it returns [c] within [fuel] iterations exactly when some iteration
    [k < fuel] builds [c], [c] is not on the snake, and every earlier
    iteration builds a cell of the snake. *)
Theorem generateFood_first_free
    (fuel : nat) (random : RandomSource) (snake : list Position)
    (c : Position) :
  generateFood fuel random snake = Some c <->
  exists k,
    (k < fuel)%nat /\ draw random k = c /\ ~ In c snake /\
    forall j, (j < k)%nat -> In (draw random j) snake.
Proof.
  revert random. induction fuel as [|fuel IH]; intros random; simpl.
  - split; [discriminate|]. intros [k [Hk _]]. lia.
  - destruct (occupied snake (firstDraw random)) eqn:Hocc.
    + rewrite IH. split.
      * intros [k [Hk [Hd [Hfree Hbefore]]]]. exists (S k).
        repeat split; [lia | exact Hd | exact Hfree |].
        intros [|j] Hj; [apply occupied_true; exact Hocc|].
        apply (Hbefore j). lia.
      * intros [[|k] [Hk [Hd [Hfree Hbefore]]]].
        -- simpl in Hd. subst c. apply occupied_false in Hfree. congruence.
        -- exists k. repeat split; [lia | exact Hd | exact Hfree |].
           intros j Hj. apply (Hbefore (S j)). lia.
    + split.
      * intros [= <-]. exists 0%nat.
        repeat split; [lia | apply occupied_false; exact Hocc |].
        intros j Hj. lia.
      * intros [[|k] [Hk [Hd [Hfree Hbefore]]]].
        -- simpl in Hd. congruence.
        -- pose proof (Hbefore 0%nat ltac:(lia)) as H0. simpl in H0.
           apply occupied_true in H0. congruence.
Qed.

(** A tick does not touch the heading, the pause flag or [isPlaying]; it
    never shortens the snake and lengthens it by one cell at most; and it
    leaves the food where it is unless the moved head is on it. *)
Theorem advanceTick_frame
    (fuel : nat) (random : RandomSource) (e e' : Engine) :
  advanceTick fuel random e = Some e' ->
  direction (gameState e') = direction (gameState e) /\
  isPaused (gameState e') = isPaused (gameState e) /\
  isPlaying e' = isPlaying e /\
  (List.length (snake (gameState e')) = List.length (snake (gameState e)) \/
   List.length (snake (gameState e'))
   = S (List.length (snake (gameState e)))) /\
  (food (gameState e') = food (gameState e) \/
   movedHead (gameState e) = Some (food (gameState e))).
Proof.
  unfold advanceTick. destruct (loopActive e).
  2:{ intros [= <-]. repeat split; auto. }
  intros Hmove.
  pose proof (moveSnake_frame _ _ _ _ Hmove) as [Hp [Hpa [Hd _]]].
  split; [exact Hd|]. split; [exact Hpa|]. split; [exact Hp|].
  apply moveSnake_inv in Hmove.
  destruct Hmove as [->|[_ [h [Hh [[_ ->]|[[_ [_ [Hfood [nf [_ ->]]]]]|[_ [_ [_ ->]]]]]]]]];
    cbn [afterEating withGameState withGameOver withSnake gameState snake
         food List.length].
  - split; left; reflexivity.
  - split; left; reflexivity.
  - split; [right; reflexivity|]. right. congruence.
  - split; [|left; reflexivity]. left.
    destruct (movedHead_Some _ _ Hh) as [a [rest [Hs _]]].
    rewrite Hs. cbn [List.length]. f_equal. apply length_removelast_cons.
Qed.

Lemma advanceTick_frame_witness :
  direction (gameState (afterEating foodAhead (mkPosition 3 4)))
  = direction (gameState foodAhead) /\
  isPaused (gameState (afterEating foodAhead (mkPosition 3 4)))
  = isPaused (gameState foodAhead) /\
  isPlaying (afterEating foodAhead (mkPosition 3 4)) = isPlaying foodAhead /\
  (List.length (snake (gameState (afterEating foodAhead (mkPosition 3 4))))
   = List.length (snake (gameState foodAhead)) \/
   List.length (snake (gameState (afterEating foodAhead (mkPosition 3 4))))
   = S (List.length (snake (gameState foodAhead)))) /\
  (food (gameState (afterEating foodAhead (mkPosition 3 4)))
   = food (gameState foodAhead) \/
   movedHead (gameState foodAhead) = Some (food (gameState foodAhead))).
Proof.
  apply (advanceTick_frame 1 (cellSource 3 4) foodAhead).
  reflexivity.
Defined.

(** A tick of a Running engine ends the game exactly when the moved head is
    off the grid or on a cell of the snake. *)
Theorem advanceTick_over_iff
    (fuel : nat) (random : RandomSource) (e e' : Engine) (h : Position) :
  phase e = Running ->
  movedHead (gameState e) = Some h ->
  advanceTick fuel random e = Some e' ->
  (phase e' = Over <-> ~ inGrid h \/ In h (snake (gameState e))).
Proof.
  intros Hrun Hh. rewrite advanceTick_Running by exact Hrun. intros Hmove.
  pose proof (Running_flags _ Hrun) as [Hplay [Hover Hpaused]].
  pose proof (Running_not_halted _ Hrun) as Hgo.
  pose proof (moveSnake_frame _ _ _ _ Hmove) as [Hp [Hpa _]].
  assert (Hphase : phase e' = Over <-> gameOver (gameState e') = true).
  { unfold phase. rewrite Hp, Hplay, Hpa, Hpaused.
    destruct (gameOver (gameState e')); simpl; split; congruence. }
  rewrite Hphase. clear Hphase.
  assert (Hhits : hitsWall h || occupied (snake (gameState e)) h = true
                  <-> ~ inGrid h \/ In h (snake (gameState e))).
  { rewrite orb_true_iff, hitsWall_true, occupied_true. reflexivity. }
  rewrite <- Hhits. clear Hhits.
  destruct (hitsWall h || occupied (snake (gameState e)) h) eqn:Hhit.
  - rewrite (moveSnake_collision fuel random e h Hgo Hh Hhit) in Hmove.
    injection Hmove as <-. split; reflexivity.
  - apply orb_false_iff in Hhit. destruct Hhit as [Hwall Hocc].
    assert (Hstill : gameOver (gameState e') = false).
    { destruct (Position_eq_dec h (food (gameState e))) as [Heq|Hneq].
      - rewrite (moveSnake_eat fuel random e h) in Hmove by assumption.
        destruct (generateFood fuel random (h :: snake (gameState e)));
          [|discriminate].
        injection Hmove as <-. exact Hover.
      - rewrite (moveSnake_advance fuel random e h) in Hmove by assumption.
        injection Hmove as <-. exact Hover. }
    rewrite Hstill. split; discriminate.
Qed.

Lemma advanceTick_over_iff_witness :
  phase (withGameState curledSnake (withGameOver (gameState curledSnake) true))
  = Over
  <-> ~ inGrid (mkPosition 10 10)
      \/ In (mkPosition 10 10) (snake (gameState curledSnake)).
Proof.
  apply (advanceTick_over_iff 0 scanSource curledSnake).
  - reflexivity.
  - reflexivity.
  - reflexivity.
Defined.

(** A tick fails to return only inside the sampling loop: the engine is
    Running, the moved head is on the food, in the grid and off the snake,
    and the loop has not found a free cell for the snake grown by it. *)
Theorem advanceTick_hangs_only_sampling
    (fuel : nat) (random : RandomSource) (e : Engine) :
  advanceTick fuel random e = None ->
  phase e = Running /\
  movedHead (gameState e) = Some (food (gameState e)) /\
  inGrid (food (gameState e)) /\
  ~ In (food (gameState e)) (snake (gameState e)) /\
  generateFood fuel random (food (gameState e) :: snake (gameState e)) = None.
Proof.
  unfold advanceTick. destruct (loopActive e) eqn:Hloop; [|discriminate].
  apply loopActive_Running in Hloop. intros Hmove.
  pose proof (Running_not_halted _ Hloop) as Hgo.
  split; [exact Hloop|].
  destruct (movedHead (gameState e)) as [h|] eqn:Hh.
  2:{ unfold movedHead in Hh. destruct (snake (gameState e)) eqn:Hs;
        [|discriminate].
      rewrite moveSnake_empty in Hmove by exact Hs. discriminate. }
  destruct (hitsWall h || occupied (snake (gameState e)) h) eqn:Hhit.
  { rewrite (moveSnake_collision fuel random e h Hgo Hh Hhit) in Hmove.
    discriminate. }
  apply orb_false_iff in Hhit. destruct Hhit as [Hwall Hocc].
  destruct (Position_eq_dec h (food (gameState e))) as [Heq|Hneq].
  - rewrite (moveSnake_eat fuel random e h) in Hmove by assumption.
    subst h. split; [reflexivity|].
    split; [apply hitsWall_false; exact Hwall|].
    split; [apply occupied_false; exact Hocc|].
    destruct (generateFood fuel random
                (food (gameState e) :: snake (gameState e)));
      [discriminate|reflexivity].
  - rewrite (moveSnake_advance fuel random e h) in Hmove by assumption.
    discriminate.
Qed.

Lemma advanceTick_hangs_only_sampling_witness :
  phase foodAhead = Running /\
  movedHead (gameState foodAhead) = Some (food (gameState foodAhead)) /\
  inGrid (food (gameState foodAhead)) /\
  ~ In (food (gameState foodAhead)) (snake (gameState foodAhead)) /\
  generateFood 5 (cellSource 10 10)
    (food (gameState foodAhead) :: snake (gameState foodAhead)) = None.
Proof.
  apply (advanceTick_hangs_only_sampling 5 (cellSource 10 10) foodAhead).
  reflexivity.
Defined.

(** The state updater of [moveSnake] never reads [isPlaying]: on an engine
    that is not playing it does to the game state and the high score exactly
    what it does on the same engine playing.  Only the game loop, which runs
    the timer while [isPlaying] holds, keeps an Idle engine still. *)
Theorem moveSnake_blind_to_isPlaying
    (fuel : nat) (random : RandomSource) (s : GameState) (hs : Z) :
  moveSnake fuel random (mkEngine s hs false)
  = option_map (fun e' => mkEngine (gameState e') (highScore e') false)
               (moveSnake fuel random (mkEngine s hs true)) /\
  advanceTick fuel random (mkEngine s hs false) = Some (mkEngine s hs false).
Proof.
  split; [|reflexivity].
  unfold moveSnake. cbn [gameState highScore isPlaying].
  destruct (gameOver s || isPaused s); [reflexivity|].
  destruct (snake s) as [|snake0 rest]; [reflexivity|]. cbv zeta.
  destruct (hitsWall (moveHead (direction s) snake0)); [reflexivity|].
  destruct (occupied (snake0 :: rest) (moveHead (direction s) snake0));
    [reflexivity|].
  destruct ((x (moveHead (direction s) snake0) =? x (food s))
            && (y (moveHead (direction s) snake0) =? y (food s)));
    [|reflexivity].
  destruct (generateFood fuel random
              (moveHead (direction s) snake0 :: snake0 :: rest));
    reflexivity.
Qed.
